(** * YouTube Audit: scoring and insight engine

    A shallow embedding of the analysis helpers of [app.py] and of the
    channel-health block of [pdf_report.py], together with the properties
    the specification states about them.

    Numbers.  Python floats are modelled by exact rationals ([Q]); a pandas
    cell that may hold NaN is an [option Q] with [None] for NaN.  Rounding
    error of binary64 arithmetic is outside the model; the rounding the
    code asks for explicitly ([round], [int], [.round(n)]) is modelled.
    The one place where the code can produce an infinity (a zero median
    gap in [cadence_stats]) has its own case. *)

From Stdlib Require Import ZArith QArith Qround Qabs Lia Lqa Bool.
From Stdlib Require Import Ascii String DecimalString Sorted.
From stdpp Require Import base option list strings gmap.

Open Scope Z_scope.
Open Scope Q_scope.

(** ** Numeric helpers *)

Module Num.

(** A cell of a float column: [None] is NaN. *)
Definition fcell := option Q.

(** [int(x)] on a float: truncation toward zero. *)
Definition trunc (q : Q) : Z :=
  if Qle_bool 0 q then Qfloor q else Qceiling q.

(** Round half to even, as Python's [round] and numpy's [rint] do. *)
Definition round_half_even (q : Q) : Z :=
  let f := Qfloor q in
  match Qcompare (q - inject_Z f) (1 # 2) with
  | Lt => f
  | Gt => (f + 1)%Z
  | Eq => if Z.even f then f else (f + 1)%Z
  end.

(** [round(x, n)] and [Series.round(n)]. *)
Definition round_dec (n : nat) (q : Q) : Q :=
  let p := Z.pow_pos 10 (Pos.of_nat n) in
  match n with
  | O => inject_Z (round_half_even q)
  | _ => round_half_even (q * inject_Z p) # Z.to_pos p
  end.

Definition Qmin (a b : Q) : Q := if Qle_bool a b then a else b.
Definition Qmax (a b : Q) : Q := if Qle_bool a b then b else a.

(** [Series.clip(lo, hi)] on one value. *)
Definition clip (lo hi x : Q) : Q := Qmin hi (Qmax lo x).

Definition Qsum (l : list Q) : Q := foldr Qplus 0 l.

Definition Qmean (l : list Q) : Q := Qsum l / inject_Z (Z.of_nat (length l)).

End Num.
Import Num.

(** ** Text helpers

    Python strings are modelled by [string]; the character classes of the
    regular expressions are the ASCII ones. *)

Module Text.

Definition chars (s : string) : list ascii := list_ascii_of_string s.

Definition code (c : ascii) : N := N_of_ascii c.

Definition in_range (lo hi : N) (c : ascii) : bool :=
  (lo <=? code c)%N && (code c <=? hi)%N.

(** [ch.isdigit()] and the class [\d]. *)
Definition is_digit (c : ascii) : bool := in_range 48 57 c.

Definition is_lower (c : ascii) : bool := in_range 97 122 c.

Definition is_upper (c : ascii) : bool := in_range 65 90 c.

(** The class [\w], which decides where [\b] holds. *)
Definition is_word (c : ascii) : bool :=
  is_digit c || is_lower c || is_upper c || (code c =? 95)%N.

(** [str.lower()] on one character. *)
Definition lower_char (c : ascii) : ascii :=
  if is_upper c then ascii_of_N (code c + 32) else c.

Definition lower (s : list ascii) : list ascii := map lower_char s.

Definition ascii_eqb (a b : ascii) : bool := (code a =? code b)%N.

(** [p] is a prefix of [s], ignoring case ([re.I]); returns what follows. *)
Fixpoint strip_prefix_ci (p s : list ascii) : option (list ascii) :=
  match p, s with
  | [], _ => Some s
  | _ :: _, [] => None
  | a :: p', b :: s' =>
      if ascii_eqb (lower_char a) (lower_char b) then strip_prefix_ci p' s'
      else None
  end.

(** [p] is a prefix of [s], compared case-sensitively. *)
Fixpoint strip_prefix (p s : list ascii) : option (list ascii) :=
  match p, s with
  | [], _ => Some s
  | _ :: _, [] => None
  | a :: p', b :: s' => if ascii_eqb a b then strip_prefix p' s' else None
  end.

(** [\b] after a word character: the text ends or a non-word one follows. *)
Definition boundary_after (rest : list ascii) : bool :=
  match rest with
  | [] => true
  | c :: _ => negb (is_word c)
  end.

(** [re.search] scans the start positions from left to right; [prev_word]
    says whether the character before the position is a word character. *)
Fixpoint search_at (m : bool -> list ascii -> bool) (prev_word : bool)
    (s : list ascii) : bool :=
  m prev_word s ||
  match s with
  | [] => false
  | c :: rest => search_at m (is_word c) rest
  end.

End Text.
Import Text.

(** ** SEO scoring ([app.py], [_POWER] to [seo_score_row]) *)

Module Seo.

(** The vocabulary of [_POWER]. *)
Definition power_words : list string :=
  [ "best"; "secret"; "fast"; "simple"; "ultimate"; "new"; "proof"; "free";
    "easy"; "guide"; "mistake"; "hack"; "win"; "earn"; "rich"; "money";
    "truth"; "behind"; "strategy"; "blueprint" ]%string.

(** One alternative of [_POWER] at a position: the word, then [\b]. *)
Definition word_here (s : list ascii) (w : string) : bool :=
  match strip_prefix_ci (chars w) s with
  | Some rest => boundary_after rest
  | None => false
  end.

(** [\b(best|secret|...)\b] at a position. *)
Definition power_here (prev_word : bool) (s : list ascii) : bool :=
  negb prev_word && existsb (word_here s) power_words.

(** [bool(_POWER.search(s))]. *)
Definition power_search (s : string) : bool :=
  search_at power_here false (chars s).

(** [_has_number]: [any(ch.isdigit() for ch in s or "")]. *)
Definition _has_number (s : string) : bool := existsb is_digit (chars s).

(** [https?://] at a position. *)
Definition link_here (_ : bool) (s : list ascii) : bool :=
  match strip_prefix (chars "http") s with
  | Some rest =>
      match strip_prefix (chars "://") rest with
      | Some _ => true
      | None =>
          match strip_prefix (chars "s://") rest with
          | Some _ => true
          | None => false
          end
      end
  | None => false
  end.

(** [_has_link]: [bool(re.search(r"https?://", s or ""))]. *)
Definition _has_link (s : string) : bool :=
  search_at link_here false (chars s).

(** [:\d{2}\b] after the leading digits. *)
Definition minutes_tail (s : list ascii) : bool :=
  match s with
  | c :: d1 :: d2 :: rest =>
      ascii_eqb c ":"%char && is_digit d1 && is_digit d2 && boundary_after rest
  | _ => false
  end.

(** [\b\d{1,2}:\d{2}\b] at a position: two leading digits are tried first,
    then one. *)
Definition chapter_here (prev_word : bool) (s : list ascii) : bool :=
  negb prev_word &&
  match s with
  | d1 :: rest1 =>
      is_digit d1 &&
      ((match rest1 with
        | d2 :: rest2 => is_digit d2 && minutes_tail rest2
        | [] => false
        end) || minutes_tail rest1)
  | [] => false
  end.

(** [_has_chapters]. *)
Definition _has_chapters (s : string) : bool :=
  search_at chapter_here false (chars s).

(** An argument declared [float] that the callers may leave as [None] or
    fill with NaN. *)
Inductive pyfloat :=
| PyNone
| PyNaN
| PyNum (q : Q).

(** [float(x or 0.0)]: [None] and zero are falsy, NaN is not. *)
Definition float_or_zero (x : pyfloat) : fcell :=
  match x with
  | PyNone => Some 0
  | PyNaN => None
  | PyNum q => if Qeq_bool q 0 then Some 0 else Some q
  end.

(** [max(0.0, x)]: the second argument wins only when [x > 0.0] holds,
    which is false for NaN. *)
Definition max_zero (x : fcell) : Q :=
  match x with
  | Some q => if Qle_bool q 0 then 0 else q
  | None => 0
  end.

(** The [notes] dictionary of [seo_score_row]. *)
Record notes := {
  title_len_ok : bool;
  power_word : bool;
  has_number : bool;
  dup_penalty_note : Z;
  desc_len_ok : bool;
  chapters : bool;
  links : bool;
  like_rate_note : Q;
  comment_rate_note : Q
}.

Definition str_len (s : string) : Z := Z.of_nat (String.length s).

Definition or_empty (s : option string) : string := default ""%string s.

(** [pts += n] under a condition. *)
Definition award (c : bool) (n : Z) (pts : Z) : Z :=
  if c then (pts + n)%Z else pts.

Definition seo_score_row (title desc : option string)
    (like_rate comment_rate : pyfloat) (dup_penalty : Z) : Z * notes :=
  let title := or_empty title in
  let desc := or_empty desc in
  let pts := 0%Z in
  (* Title (40 pts) *)
  let ok_len := (45 <=? str_len title)%Z && (str_len title <=? 70)%Z in
  let pw := power_search title in
  let num := _has_number title in
  let pts := award ok_len 12 pts in
  let pts := award pw 10 pts in
  let pts := award num 8 pts in
  let pts := award (dup_penalty =? 0)%Z 10 pts in
  (* Description / structure (35 pts) *)
  let long_desc := (200 <=? str_len desc)%Z in
  let chapters := _has_chapters desc in
  let links := _has_link desc in
  let pts := award long_desc 15 pts in
  let pts := award chapters 10 pts in
  let pts := award links 10 pts in
  (* Engagement (25 pts) *)
  let lr := max_zero (float_or_zero like_rate) in
  let cr := max_zero (float_or_zero comment_rate) in
  let pts := (pts + trunc (Qmin lr 5 / 5 * 18))%Z in
  let pts := (pts + trunc (Qmin cr 1 / 1 * 7))%Z in
  (Z.min 100 pts,
   {| title_len_ok := ok_len; power_word := pw; has_number := num;
      dup_penalty_note := dup_penalty; desc_len_ok := long_desc;
      chapters := chapters; links := links;
      like_rate_note := lr; comment_rate_note := cr |}).

End Seo.

(** ** Series and frames

    A DataFrame is a list of rows that share one index; a column is the
    list of one field, and the element-wise pandas operators act on
    columns of equal length. *)

Module Frame.

(** A row of the audit frame: the fetched fields and the columns the
    analysis helpers add.  [views] is an integer column; [likes] and
    [comments] hold NaN when the statistic is hidden; [published] is the
    parsed instant in seconds since the epoch, [None] for NaT. *)
Record row := {
  title : option string;
  description : option string;
  views : Z;
  likes : option Z;
  comments : option Z;
  published : option Z;
  age_min : fcell;
  views_per_min : fcell;
  like_rate : fcell;
  comment_rate : fcell
}.





(** [df[name]] and [df[name] = col]. *)
Definition column {A} (f : row -> A) (df : list row) : list A := map f df.




(** Float operators on cells: NaN is absorbing.  A zero divisor yields an
    infinity or NaN in pandas; the helpers only divide by columns that are
    free of zeros, and the cell is [None] here. *)
Definition cell_map2 (f : Q -> Q -> Q) (a b : fcell) : fcell :=
  match a, b with
  | Some x, Some y => Some (f x y)
  | _, _ => None
  end.

Definition cell_div (a b : fcell) : fcell :=
  match a, b with
  | Some x, Some y => if Qeq_bool y 0 then None else Some (x / y)
  | _, _ => None
  end.


Definition s_add (a b : list fcell) : list fcell :=
  zip_with (cell_map2 Qplus) a b.

Definition s_sub (a b : list fcell) : list fcell :=
  zip_with (cell_map2 Qminus) a b.

Definition s_scale (k : Q) (a : list fcell) : list fcell :=
  map (fmap (fun x => x * k)) a.

Definition s_shift (k : Q) (a : list fcell) : list fcell :=
  map (fmap (fun x => x + k)) a.

Definition s_over (k : Q) (a : list fcell) : list fcell :=
  map (fmap (fun x => x / k)) a.

Definition s_round (n : nat) (a : list fcell) : list fcell :=
  map (fmap (round_dec n)) a.

Definition s_clip (lo hi : Q) (a : list fcell) : list fcell :=
  map (fmap (clip lo hi)) a.


Definition s_fillna (d : Q) (a : list fcell) : list fcell :=
  map (fun x => Some (default d x)) a.

(** [s.notna()] on one cell. *)
Definition notna (x : fcell) : bool :=
  match x with Some _ => true | None => false end.

(** [s.dropna()] as the list of the values left. *)
Definition dropna (a : list fcell) : list Q := omap id a.

End Frame.
Import Frame.

(** ** Metric derivation ([engagement_rates], [view_velocity],
    [title_diagnostics]) *)

Module Metrics.


(** What [view_velocity] can observe besides its argument: the wall clock
    ([datetime.now(timezone.utc)], seconds since the epoch) and the process
    environment. *)
Record world := {
  clock_utc : Q;
  environ : gmap string string
}.



End Metrics.

(** ** Ordering helpers: stable sort, counts and modes *)

Module Order.

Section Sort.
Context {A : Type} (leb : A -> A -> bool).

(** Stable insertion: [x] goes after the elements that are [leb] it. *)
Fixpoint insert_sorted (x : A) (l : list A) : list A :=
  match l with
  | [] => [x]
  | y :: l' => if leb y x then y :: insert_sorted x l' else x :: l
  end.

(** A stable sort (what [kind="mergesort"] guarantees). *)
Definition stable_sort (l : list A) : list A :=
  foldr insert_sorted [] (reverse l).

End Sort.

Section Tally.
Context {A : Type} (eqb : A -> A -> bool).

(** One more occurrence of [w]: its counter grows, or a new counter is
    appended (first-seen order, as the hash table of [value_counts]). *)
Fixpoint bump (w : A) (vc : list (A * nat)) : list (A * nat) :=
  match vc with
  | [] => [(w, 1%nat)]
  | (k, n) :: vc' => if eqb k w then (k, S n) :: vc' else (k, n) :: bump w vc'
  end.

Definition tally (l : list A) : list (A * nat) :=
  foldl (fun vc w => bump w vc) [] l.

(** [Series.value_counts()]: the counters, most frequent first. *)
Definition value_counts (l : list A) : list (A * nat) :=
  stable_sort (fun a b => (snd b <=? snd a)%nat) (tally l).

(** [Series.mode()]: the values of highest count, in ascending order. *)
Definition mode (leb : A -> A -> bool) (l : list A) : list A :=
  match value_counts l with
  | [] => []
  | (_, top) :: _ =>
      stable_sort leb
        (map fst (filter (fun kn => snd kn = top) (tally l)))
  end.

End Tally.

End Order.
Import Order.

(** ** Title diagnostics *)

Module Title.

(** The class [[a-z']]. *)
Definition is_token_char (c : ascii) : bool :=
  is_lower c || (code c =? 39)%N.

(** A run is a match of [[a-z']{3,}] when it has 3 characters or more. *)
Definition emit (run : list ascii) : list string :=
  if (3 <=? length run)%nat then [string_of_list_ascii run] else [].

(** [re.findall(r"[a-z']{3,}", s)]: the maximal runs of the class, left
    to right, that are long enough; [run] is the run being read. *)
Fixpoint findall_runs (run : list ascii) (s : list ascii) : list string :=
  match s with
  | [] => emit run
  | c :: rest =>
      if is_token_char c then findall_runs (run ++ [c]) rest
      else emit run ++ findall_runs [] rest
  end.



(** The frame [title_diagnostics] returns. *)
Record diagnostics := {
  title_len : Z;
  title_ok_len : bool;
  dup_word_penalty : Z
}.



End Title.

(** ** Batch statistics *)

Module Stats.

Definition Qleb (a b : Q) : bool := Qle_bool a b.

Definition Qltb (a b : Q) : bool := negb (Qle_bool b a).

(** The median of the values present: the middle one, or the mean of the
    two middle ones. *)
Definition median_of (l : list Q) : fcell :=
  let s := stable_sort Qleb l in
  let n := length s in
  match n with
  | O => None
  | _ =>
      if Nat.even n
      then match s !! (n / 2 - 1)%nat, s !! (n / 2)%nat with
           | Some a, Some b => Some ((a + b) / 2)
           | _, _ => None
           end
      else s !! (n / 2)%nat
  end.

(** [Series.median()], which skips NaN. *)
Definition s_median (c : list fcell) : fcell := median_of (dropna c).

(** [Series.mean()], which skips NaN. *)
Definition s_mean (c : list fcell) : fcell :=
  match dropna c with
  | [] => None
  | vs => Some (Qmean vs)
  end.

Definition sum_sq_dev (vs : list Q) : Q :=
  let m := Qmean vs in Qsum (map (fun x => (x - m) * (x - m)) vs).

Section Sqrt.
(** The square root of the float library. *)
Variable fsqrt : Q -> Q.

(** [Series.std(ddof=d)]: NaN is skipped, and the result is NaN when no
    more than [d] values are left. *)
Definition s_std (ddof : nat) (c : list fcell) : fcell :=
  let vs := dropna c in
  if (length vs <=? ddof)%nat then None
  else Some (fsqrt (sum_sq_dev vs / inject_Z (Z.of_nat (length vs - ddof)))).

End Sqrt.

End Stats.
Import Stats.

(** ** Cadence analysis ([cadence_stats]) *)

Module Cadence.

(** [uploads_week] is a float that is infinite when the median gap is 0. *)
Inductive xfloat :=
| Finite (q : Q)
| Infinity.

Record cadence := {
  uploads_week : xfloat;
  median_gap_days : fcell;
  best_day : string;
  best_hour_utc : option Z;
  consistency_100 : Z
}.

(** [Series.diff()] on the sorted instants, in days: NaN comes first. *)
Fixpoint diffs (prev : Z) (l : list Z) : list fcell :=
  match l with
  | [] => []
  | t :: l' => Some (inject_Z (t - prev) / 86400) :: diffs t l'
  end.

Definition gaps_of (d : list Z) : list fcell :=
  match d with
  | [] => []
  | t :: l => None :: diffs t l
  end.

(** [round(7.0 / m, 2)] for a numpy float [m]: a zero divisor gives an
    infinity (the gaps of a sorted series are never negative). *)
Definition seven_over (m : fcell) : xfloat :=
  match m with
  | Some g => if Qeq_bool g 0 then Infinity else Finite (round_dec 2 (7 / g))
  | None => Finite 0
  end.

(** [min(1.0, uploads_week / 3.0)]. *)
Definition freq_term (u : xfloat) : Q :=
  match u with
  | Finite q => Qmin 1 (q / 3)
  | Infinity => 1
  end.

Definition day_names : list string :=
  [ "Monday"; "Tuesday"; "Wednesday"; "Thursday"; "Friday"; "Saturday";
    "Sunday" ]%string.

(** The epoch fell on a Thursday. *)
Definition day_name (t : Z) : string :=
  default ""%string (day_names !! Z.to_nat ((t / 86400 + 3) mod 7)).

Definition hour_of (t : Z) : Z := (t mod 86400) / 3600.

Section Sqrt.
Variable fsqrt : Q -> Q.

Definition cadence_stats (published : list (option Z)) : cadence :=
  let d := stable_sort Z.leb (omap id published) in
  match d with
  | [] =>
      {| uploads_week := Finite 0; median_gap_days := None;
         best_day := "N/A"; best_hour_utc := None; consistency_100 := 0 |}
  | _ =>
      let gaps := gaps_of d in
      let uploads_week :=
        if existsb notna gaps then seven_over (s_median gaps)
        else Finite 0 in
      let day := default ""%string (head (mode String.eqb String.leb (map day_name d))) in
      let hour := default 0%Z (head (mode Z.eqb Z.leb (map hour_of d))) in
      let freq := freq_term uploads_week in
      let var :=
        if (2 <=? length (dropna gaps))%nat
        then default 0 (s_std fsqrt 1 gaps)
        else 5 in
      let cons := trunc (((7 # 10) * freq + (3 # 10) * (1 / (1 + var))) * 100) in
      {| uploads_week := uploads_week;
         median_gap_days := fmap (round_dec 2) (s_median gaps);
         best_day := day; best_hour_utc := Some hour;
         consistency_100 := cons |}
  end.

End Sqrt.

End Cadence.

(** ** Improvement advisor ([improvements_for_video]) *)

Module Advisor.

(** The dictionary [v]: [v.get(key)] is [None] for a key that is absent
    or maps to [None]. *)
Record video := {
  v_title : option string;
  v_description : option string;
  v_views : option Z;
  v_comments : option Z
}.

Definition tip_number : string :=
  "Add one number to the title to anchor the promise.".
Definition tip_lengthen : string :=
  "Lengthen title to ~55 chars with a clear outcome.".
Definition tip_trim : string :=
  "Trim title to <=70 chars. Remove filler words.".
Definition tip_power : string :=
  "Add one power word (e.g., ‘ultimate’, ‘simple’, ‘proven’).".
Definition tip_description : string :=
  "Extend description to >200 chars with 1–2 links near the top.".
Definition tip_chapters : string :=
  "Add chapters (timestamps) for navigation.".
Definition tip_link : string :=
  "Include one clear CTA link in the first 3 lines.".
Definition tip_comments : string :=
  "Pin a question and reply to the first 5 comments.".
Definition tip_thumbnail : string :=
  "Test a stronger thumbnail: big face + 2–4 words + strong contrast.".
Definition tip_fallback : string :=
  "Solid baseline. Split-test title and thumbnail for 24h.".

(** [tips.append(t)] under a condition. *)
Definition append_if (c : bool) (t : string) (tips : list string)
  : list string := if c then tips ++ [t] else tips.

(** [max(1000, 0.8 * median_views)]: the float wins only when larger. *)
Definition view_floor (median_views : Z) : Q :=
  let f := (8 # 10) * inject_Z median_views in
  if Qltb 1000 f then f else 1000.

(** The closing loop: keep a tip not seen before, stop at 6. *)
Fixpoint dedup_cap (tips : list string) (seen : gset string)
    (out : list string) : list string :=
  match tips with
  | [] => out
  | t :: rest =>
      let '(seen, out) :=
        if bool_decide (t ∈ seen) then (seen, out)
        else (seen ∪ {[ t ]}, out ++ [t]) in
      if (length out =? 6)%nat then out else dedup_cap rest seen out
  end.

Definition improvements_for_video (v : video) (median_views : Z)
  : list string :=
  let tips := [] in
  let title := default ""%string (v_title v) in
  let desc := default ""%string (v_description v) in
  let views := default 0%Z (v_views v) in
  let comments := default 0%Z (v_comments v) in
  let tips := append_if (negb (existsb is_digit (chars title))) tip_number tips in
  let tips :=
    if (Seo.str_len title <? 45)%Z then tips ++ [tip_lengthen]
    else if (70 <? Seo.str_len title)%Z then tips ++ [tip_trim]
    else tips in
  let tips := append_if (negb (Seo.power_search title)) tip_power tips in
  let tips := append_if (Seo.str_len desc <? 200)%Z tip_description tips in
  let tips := append_if (negb (Seo._has_chapters desc)) tip_chapters tips in
  let tips := append_if (negb (Seo._has_link desc)) tip_link tips in
  let tips := append_if (comments =? 0)%Z tip_comments tips in
  let tips :=
    append_if (Qltb (inject_Z views) (view_floor median_views))
      tip_thumbnail tips in
  match dedup_cap tips ∅ [] with
  | [] => [tip_fallback]
  | out => out
  end.

End Advisor.

(** ** Retention insights ([top_drop_insights]) *)

Module Retention.

(** A row of the analytics report. *)
Record point := {
  elapsedVideoTimeRatio : Q;
  audienceWatchRatio : Q
}.

(** [d["audienceWatchRatio"].diff().fillna(0.0)]. *)
Fixpoint diff_from (prev : Q) (l : list Q) : list Q :=
  match l with
  | [] => []
  | x :: l' => (x - prev) :: diff_from x l'
  end.

Definition drops (df : list point) : list Q :=
  match map audienceWatchRatio df with
  | [] => []
  | x :: l => 0 :: diff_from x l
  end.

(** [d.nsmallest(k, "drop")]: the [k] rows of smallest drop, smallest
    first, rows of equal drop in frame order; nothing for [k <= 0]. *)
Definition nsmallest (k : Z) (d : list (point * Q)) : list (point * Q) :=
  take (Z.to_nat k) (stable_sort (fun a b => Qleb (snd a) (snd b)) d).

Definition decimal (z : Z) : string :=
  DecimalString.NilZero.string_of_int (Z.to_int z).

(** [f"{x:.1f}"] for a float that is not negative. *)
Definition format_1f (x : Q) : string :=
  let n := round_half_even (x * 10) in
  (decimal (n / 10) ++ "." ++ decimal (n mod 10))%string.

Definition tip_for (t : Z) : string :=
  if (t <=? 10)%Z then "open with a stronger hook, quick payoff in 0–10s"
  else if (t <=? 30)%Z then "tighten intro, cut filler, show the outcome earlier"
  else if (t <=? 60)%Z then "restate value, add motion/B-roll, remove a dead sentence"
  else "refresh pacing or add pattern-break (graphic, jump-cut, reveal)".

(** [max(0.0, -float(r["drop"]) * 100.0)]. *)
Definition drop_pct (drop : Q) : Q :=
  let v := - drop * 100 in if Stats.Qltb 0 v then v else 0.

Definition insight_for (video_secs : Z) (r : point * Q) : string :=
  let t := round_half_even (elapsedVideoTimeRatio (fst r) * inject_Z video_secs) in
  let pct := drop_pct (snd r) in
  ("~" ++ format_1f pct ++ "% viewers dropped near " ++ decimal t
       ++ "s → " ++ tip_for t ++ ".")%string.

Definition top_drop_insights (df : list point) (video_secs : Z) (k : Z)
  : list string :=
  match df with
  | [] => []
  | _ =>
      if (video_secs <=? 0)%Z then []
      else
        let d := zip df (drops df) in
        let big := nsmallest k d in
        map (insight_for video_secs) big
  end.

End Retention.

(** ** Per-video health (the [health_100] block of the audit tab) *)

Module Health.

(** A row of the audit frame after [pd.concat([df, td], axis=1)]. *)
Record audited := {
  base : row;
  diag : Title.diagnostics
}.

Definition zeros (df : list audited) : list fcell := map (fun _ => Some 0) df.

(** An integer column times an integer, seen as floats. *)
Definition int_col (c : list Z) : list fcell :=
  map (fun z => Some (inject_Z z)) c.

Section Sqrt.
Variable fsqrt : Q -> Q.

(** [df["vpm_z"]]. *)
Definition vpm_z (df : list audited) : list fcell :=
  let vpm := column views_per_min (map base df) in
  let std := s_std fsqrt 0 vpm in
  match std with
  | None => zeros df
  | Some sd =>
      if Qeq_bool sd 0 then zeros df
      else
        let mean := s_mean vpm in
        let z := map (fun x => cell_div (cell_map2 Qminus x mean) (Some sd)) vpm in
        s_fillna 0 z
  end.

(** [df["health_100"]]. *)
Definition health_100 (df : list audited) : list fcell :=
  let rows := map base df in
  let diags := map diag df in
  s_clip 0 100
    (s_round 1
       (s_add
          (s_sub
             (s_add
                (s_scale 60 (s_over 5 (s_shift 2 (s_clip (-2) 3 (vpm_z df)))))
                (s_scale 4 (s_clip 0 5 (s_fillna 0 (column like_rate rows)))))
             (int_col (map (fun p : Z => (Z.min 3 (Z.max 0 p) * 3)%Z)
                           (map Title.dup_word_penalty diags))))
          (int_col (map (fun b : bool => ((if b then 1 else 0) * 5)%Z)
                        (map Title.title_ok_len diags))))).

End Sqrt.

End Health.

(** ** Channel health ([pdf_report.py], [build_youtube_audit_pdf]) *)

Module Report.

(** A value [v.get(key)] of a video dictionary: absent or [None], a float
    NaN, or a number. *)
Inductive cell :=
| Missing
| NaN
| Num (q : Q).

Record video := {
  likes : cell;
  comments : cell;
  views : cell;
  watch_time_hours : cell;
  ctr : cell;
  seo_score : cell
}.

(** What [_avg] keeps of a sequence: [None] is no number, and NaN prints
    as ["nan"]. *)
Definition numeric (x : cell) : option Q :=
  match x with
  | Num q => Some q
  | _ => None
  end.

Definition _avg (seq : list cell) : Q :=
  match omap numeric seq with
  | [] => 0
  | vs => Qmean vs
  end.

(** [float(x or 0)]. *)
Definition float_or_0 (x : cell) : fcell :=
  match x with
  | Missing => Some 0
  | NaN => None
  | Num q => Some q
  end.

Definition of_fcell (x : fcell) : cell :=
  match x with
  | Some q => Num q
  | None => NaN
  end.

(** Python's [min(a, b)] and [max(a, b)] on numbers. *)
Definition py_min (a b : Q) : Q := if Qltb b a then b else a.
Definition py_max (a b : Q) : Q := if Qltb a b then b else a.

(** [sum(xs)]: the items are added from the left, starting at 0. *)
Definition py_sum (l : list Q) : Q := foldl Qplus 0 l.

(** A dictionary with string keys, in insertion order. *)
Definition dict := list (string * Q).

Fixpoint dict_set (k : string) (v : Q) (d : dict) : dict :=
  match d with
  | [] => [(k, v)]
  | (k', v') :: d' =>
      if String.eqb k' k then (k', v) :: d' else (k', v') :: dict_set k v d'
  end.

Fixpoint dict_get (k : string) (d : dict) : option Q :=
  match d with
  | [] => None
  | (k', v') :: d' => if String.eqb k' k then Some v' else dict_get k d'
  end.

(** The positive-view engagement rates of the loop over [videos]. *)
Definition er_list (videos : list video) : list fcell :=
  omap (fun v =>
          let likes := float_or_0 (likes v) in
          let comments := float_or_0 (comments v) in
          let views := float_or_0 (views v) in
          match views with
          | Some n =>
              if Qltb 0 n
              then Some (fmap (fun s => s / n * 100) (cell_map2 Qplus likes comments))
              else None
          | None => None
          end) videos.

Definition weights : dict :=
  [ ("Content Optimization", 25); ("Engagement", 20); ("Consistency", 15);
    ("SEO/Discoverability", 20); ("Retention", 20) ]%string.

Record channel_health := {
  pillars : dict;
  overall : Q
}.

(** [sum(pillars[k]*weights[k] for k in pillars)/100.0]. *)
Definition weighted_overall (pillars : dict) : Q :=
  py_sum (map (fun kv => snd kv * default 0 (dict_get (fst kv) weights)) pillars)
  / 100.

(** The Channel Health Score block. *)
Definition channel_health_score (videos : list video) : channel_health :=
  let avg_wt := _avg (map watch_time_hours videos) in
  let avg_ctr := _avg (map ctr videos) in
  let avg_seo := _avg (map seo_score videos) in
  let pillars := [] in
  let pillars := dict_set "Content Optimization" (py_min 100 avg_seo) pillars in
  let er := er_list videos in
  let pillars :=
    dict_set "Engagement"
      (match er with
       | [] => py_max 0 (py_min 100 avg_ctr)
       | _ => py_max 0 (py_min 100 (_avg (map of_fcell er) * 2))
       end) pillars in
  let pillars := dict_set "Consistency" 70 pillars in
  let pillars :=
    dict_set "SEO/Discoverability"
      (if Qeq_bool avg_ctr 0 then py_min 100 (avg_seo * (9 # 10))
       else py_min 100 (avg_ctr * 10)) pillars in
  let pillars := dict_set "Retention" (py_min 100 (50 + avg_wt * 5)) pillars in
  {| pillars := pillars; overall := weighted_overall pillars |}.

End Report.

(** ** The rubric as the specification words it *)

Module SeoSpec.

(** A missing (None or NaN) or negative rate counts as 0 when scoring. *)
Definition rate_for_scoring (r : Seo.pyfloat) : Q :=
  match r with
  | Seo.PyNum q => if Qle_bool 0 q then q else 0
  | _ => 0
  end.

Definition points (c : bool) (n : Z) : Z := if c then n else 0%Z.

Definition title_points (title : string) (dup_penalty : Z) : Z :=
  (points ((45 <=? Seo.str_len title) && (Seo.str_len title <=? 70)) 12
   + points (Seo.power_search title) 10
   + points (Seo._has_number title) 8
   + points (dup_penalty =? 0) 10)%Z.

Definition description_points (desc : string) : Z :=
  (points (200 <=? Seo.str_len desc) 15
   + points (Seo._has_chapters desc) 10
   + points (Seo._has_link desc) 10)%Z.

Definition engagement_points (like_rate comment_rate : Seo.pyfloat) : Z :=
  (Qfloor (Qmin (rate_for_scoring like_rate) 5 / 5 * 18)
   + Qfloor (Qmin (rate_for_scoring comment_rate) 1 / 1 * 7))%Z.


End SeoSpec.


(** ** Engagement rates as the specification words them *)

Module MetricsSpec.



End MetricsSpec.


(** ** Retention: what the claims count *)

Module RetentionSpec.

(** A change of the watch ratio that is a real drop. *)
Definition negative (d : Q) : bool := Qltb d 0.

(** The insight printed for a selected row whose change is not a drop. *)
Definition flat_insight (video_secs : Z) (p : Retention.point) : string :=
  let t := round_half_even
             (Retention.elapsedVideoTimeRatio p * inject_Z video_secs) in
  ("~0.0% viewers dropped near " ++ Retention.decimal t ++ "s → "
     ++ Retention.tip_for t ++ ".")%string.

End RetentionSpec.


(** ** The advisor's rules as a table *)

Module AdvisorSpec.
Import Advisor.

(** The rule checks in their fixed order, each with its tip. *)
Definition rules (v : video) (median_views : Z) : list (bool * string) :=
  let title := default ""%string (v_title v) in
  let desc := default ""%string (v_description v) in
  let views := default 0%Z (v_views v) in
  let comments := default 0%Z (v_comments v) in
  [ (negb (existsb is_digit (chars title)), tip_number);
    ((Seo.str_len title <? 45)%Z, tip_lengthen);
    ((70 <? Seo.str_len title)%Z, tip_trim);
    (negb (Seo.power_search title), tip_power);
    ((Seo.str_len desc <? 200)%Z, tip_description);
    (negb (Seo._has_chapters desc), tip_chapters);
    (negb (Seo._has_link desc), tip_link);
    ((comments =? 0)%Z, tip_comments);
    (Qltb (inject_Z views) (view_floor median_views), tip_thumbnail) ].

(** The tips of the rules that fire, in rule order. *)
Definition fired (v : video) (median_views : Z) : list string :=
  map snd (List.filter fst (rules v median_views)).

End AdvisorSpec.


(** ** The duplicate-word penalty as the specification words it *)

Module TitleSpec.




End TitleSpec.
Import TitleSpec.


(** ** Per-video health as the specification words it *)

Module HealthSpec.
Import Health.

Section Sqrt.
Variable fsqrt : Q -> Q.

(** The population standard deviation of the views-per-minute of the
    batch; undefined when no value is present. *)
Definition vpm_std (df : list audited) : fcell :=
  s_std fsqrt 0 (map (fun r => views_per_min (base r)) df).

Definition vpm_mean (df : list audited) : fcell :=
  s_mean (map (fun r => views_per_min (base r)) df).

(** The z-score of one video against its batch: 0 when the standard
    deviation is 0 or undefined, and 0 for a video whose own
    views-per-minute is undefined. *)
Definition zscore (df : list audited) (r : audited) : Q :=
  match vpm_std df, vpm_mean df, views_per_min (base r) with
  | Some sd, Some m, Some x => if Qeq_bool sd 0 then 0 else (x - m) / sd
  | _, _, _ => 0
  end.



End Sqrt.

End HealthSpec.


(** ** View velocity as a function of the frame and the clock *)

Module VelocitySpec.


End VelocitySpec.

(** ** Cadence consistency as the specification words it *)

Module CadenceSpec.
Import Cadence.

(** A rational stand-in for the float square root, to run examples:
    the root of [n/d] to six decimals. *)
Definition sqrt_approx (q : Q) : Q :=
  Z.sqrt (Qnum q * Zpos (Qden q) * 10 ^ 12) # (Qden q * 10 ^ 6).

Section Sqrt.
Variable fsqrt : Q -> Q.

(** The gaps between consecutive uploads, in days. *)
Definition gaps (published : list (option Z)) : list fcell :=
  gaps_of (stable_sort Z.leb (omap id published)).

(** The sample standard deviation of the gaps, 5.0 when fewer than 2
    gaps are available. *)
Definition gap_stddev (published : list (option Z)) : Q :=
  match s_std fsqrt 1 (gaps published) with
  | Some sd => sd
  | None => 5
  end.

(** [100 * (0.7*freq_term + 0.3*stability_term)]. *)
Definition blend (uploads_week : xfloat) (stddev : Q) : Q :=
  100 * ((7 # 10) * freq_term uploads_week + (3 # 10) * (1 / (1 + stddev))).

(** The score as the specification has it: the blend rounded. *)
Definition consistency_rounded (published : list (option Z)) : Z :=
  round_half_even
    (blend (uploads_week (cadence_stats fsqrt published))
       (gap_stddev published)).

(** The score with the blend cut to its integer part. *)
Definition consistency_truncated (published : list (option Z)) : Z :=
  trunc
    (blend (uploads_week (cadence_stats fsqrt published))
       (gap_stddev published)).

End Sqrt.

(** Six uploads, one every 7 days, starting at [t0]. *)
Definition weekly (t0 : Z) : list (option Z) :=
  map (fun i => Some (t0 + i * 604800)%Z) [0; 1; 2; 3; 4; 5]%Z.

End CadenceSpec.


(** ** Sample inputs for the examples *)

Module Samples.


(** Ten and twenty minutes after the epoch. *)
Definition at_ten : Metrics.world :=
  {| Metrics.clock_utc := 600; Metrics.environ := ∅ |}.



End Samples.


(** ** Side conditions used by the further properties *)

Module Conditions.

(** A dictionary value that is not a negative number. *)
Definition not_negative (c : Report.cell) : Prop :=
  match c with
  | Report.Num q => 0 <= q
  | _ => True
  end.

End Conditions.


(** ** ISO-8601 durations ([parse_yt_duration_iso8601]) *)

Module Duration.

(** [int(num)] for a string of decimal digits. *)
Definition int_of_digits (num : list ascii) : Z :=
  foldl (fun acc c => (acc * 10 + (Z.of_N (code c) - 48))%Z) 0%Z num.

(** What a designator adds for the number read before it. *)
Definition unit_seconds (ch : ascii) : Z :=
  if ascii_eqb ch "H" then 3600
  else if ascii_eqb ch "M" then 60
  else if ascii_eqb ch "S" then 1
  else 0.

(** The loop over the characters after ["PT"]; [num] holds the digits
    read since the last designator. *)
Fixpoint duration_loop (d : list ascii) (num : list ascii) (total : Z) : Z :=
  match d with
  | [] => total
  | ch :: rest =>
      if is_digit ch then duration_loop rest (num ++ [ch]) total
      else
        match num with
        | [] => duration_loop rest num total
        | _ =>
            let val := int_of_digits num in
            duration_loop rest [] (total + val * unit_seconds ch)%Z
        end
  end.

(** [d.startswith("PT")] guards the loop over [d[2:]]. *)
Definition parse_yt_duration_iso8601 (d : string) : Z :=
  match strip_prefix (chars "PT") (chars d) with
  | Some rest => duration_loop rest [] 0
  | None => 0%Z
  end.

End Duration.

(** ** Video ids in requests of 50 ([fetch_video_stats]) *)

Module Fetch.

(** [range(0, n, step)]. *)
Definition range_step (n step : nat) : list nat :=
  map (fun j => (j * step)%nat) (seq 0 (Nat.div (n + step - 1) step)).

(** [[ids[i : i + 50] for i in range(0, len(ids), 50)]]. *)
Definition chunks (ids : list string) : list (list string) :=
  map (fun i => take 50 (drop i ids)) (range_step (length ids) 50).

End Fetch.

(** ** Keyword density ([keyword_density]) *)

Module Keywords.

(** The class [[A-Za-z']]. *)
Definition is_keyword_char (c : ascii) : bool :=
  is_upper c || is_lower c || (code c =? 39)%N.

Definition emit (run : list ascii) : list string :=
  if (3 <=? length run)%nat then [string_of_list_ascii run] else [].

(** [re.findall(r"[A-Za-z']{3,}", s)]. *)
Fixpoint findall_runs (run : list ascii) (s : list ascii) : list string :=
  match s with
  | [] => emit run
  | c :: rest =>
      if is_keyword_char c then findall_runs (run ++ [c]) rest
      else emit run ++ findall_runs [] rest
  end.

Definition stop : gset string :=
  list_to_set
    [ "the"; "a"; "an"; "and"; "or"; "for"; "with"; "your"; "this"; "that";
      "what"; "why"; "how"; "into"; "from"; "to"; "of"; "on"; "in"; "out";
      "are"; "was"; "were"; "been"; "being"; "you"; "my"; "our"; "their";
      "his"; "her"; "more"; "most"; "very" ]%string.



End Keywords.

(** ** License store ([_lic_load], [has_license], [add_license],
    [delete_license]) *)

Module License.

(** Python's ASCII whitespace, as [str.strip] and [str.split] see it. *)
Definition is_space (c : ascii) : bool :=
  in_range 9 13 c || in_range 28 32 c.

Fixpoint lstrip (s : list ascii) : list ascii :=
  match s with
  | c :: rest => if is_space c then lstrip rest else s
  | [] => []
  end.

(** [s.strip()]. *)
Definition strip (s : string) : string :=
  string_of_list_ascii (reverse (lstrip (reverse (lstrip (chars s))))).

(** A stored key's record. *)
Record entry := {
  note : string;
  created_utc : Q
}.

(** The license file: [None] when it is missing or does not parse. *)
Definition file := option (gmap string entry).

Definition _lic_load (f : file) : gmap string entry := default ∅ f.

Definition _lic_save (store : gmap string entry) : file := Some store.

Definition has_license (key : string) (f : file) : bool :=
  bool_decide (is_Some (_lic_load f !! strip key)).

(** [add_license] stamps the entry with [datetime.utcnow()], read from
    the wall clock. *)
Definition add_license (key note : string) (w : Metrics.world) (f : file)
  : file :=
  let s := _lic_load f in
  let s :=
    <[strip key := {| note := note; created_utc := Metrics.clock_utc w |}]> s in
  _lic_save s.

Definition delete_license (key : string) (f : file) : file :=
  let s := _lic_load f in
  if bool_decide (is_Some (s !! strip key))
  then _lic_save (delete (strip key) s)
  else f.

End License.

(** ** Text wrapping ([_wrap]) *)

Module Wrap.

(** [text.split()]: the maximal runs of characters that are not
    whitespace; [cur] is the run being read. *)
Fixpoint split_ws (cur : list ascii) (s : list ascii) : list (list ascii) :=
  match s with
  | [] => match cur with [] => [] | _ => [cur] end
  | c :: rest =>
      if License.is_space c
      then match cur with [] => [] | _ => [cur] end ++ split_ws [] rest
      else split_ws (cur ++ [c]) rest
  end.

(** [text.replace("\n", " ")]. *)
Definition unbreak (s : list ascii) : list ascii :=
  map (fun c => if ascii_eqb c "010" then " "%char else c) s.

(** [s.strip()] on a character list. *)
Definition strip_chars (s : list ascii) : list ascii :=
  reverse (License.lstrip (reverse (License.lstrip s))).

(** One turn of the loop over the words: the state is the pair of the
    line being filled and the lines finished. *)
Definition wrap_step (width_chars : Z) (st : list ascii * list (list ascii))
    (w : list ascii) : list ascii * list (list ascii) :=
  let '(line, out) := st in
  if (Z.of_nat (length line) + Z.of_nat (length w)
      + (match line with [] => 0 | _ => 1 end) <=? width_chars)%Z
  then (strip_chars (line ++ " "%char :: w), out)
  else (w, out ++ [line]).

Definition _wrap (text : string) (width_chars : Z) : list (list ascii) :=
  let text := unbreak (chars text) in
  match text with
  | [] => [[]]
  | _ =>
      let words := split_ws [] text in
      let '(line, out) := foldl (wrap_step width_chars) ([], []) words in
      match line with
      | [] => out
      | _ => out ++ [line]
      end
  end.

End Wrap.


(** ** Lines as words joined by single spaces *)

Module WrapSpec.

(** The words of a line, put together with one space between them. *)
Fixpoint join (ws : list (list ascii)) : list ascii :=
  match ws with
  | [] => []
  | [w] => w
  | w :: rest => w ++ " "%char :: join rest
  end.

(** A word as [split()] returns it: not empty, free of whitespace. *)
Definition word (w : list ascii) : Prop :=
  w <> [] /\ Forall (fun c => License.is_space c = false) w.

(** The text does not begin with whitespace. *)
Definition starts_tight (x : list ascii) : Prop :=
  match x with
  | [] => True
  | c :: _ => License.is_space c = false
  end.

(** A line is within the width, or is one single word, or is empty. *)
Definition fits (width_chars : Z) (g : list (list ascii)) : Prop :=
  g = [] \/ (Z.of_nat (length (join g)) <= width_chars)%Z
  \/ exists w, g = [w].

(** The loop state stands for the words [done]: the finished lines and
    the line being filled hold them in order. *)
Definition holds (width_chars : Z) (done : list (list ascii))
    (st : list ascii * list (list ascii)) : Prop :=
  exists (groups : list (list (list ascii))) (cur : list (list ascii)),
    fst st = join cur
    /\ snd st = map join groups
    /\ concat groups ++ cur = done
    /\ Forall (fits width_chars) groups
    /\ fits width_chars cur.

End WrapSpec.

(** ** Video ideas ([_cap60]) *)

Module Ideas.

(** [s.rstrip()]. *)
Definition rstrip (s : list ascii) : list ascii :=
  reverse (License.lstrip (reverse s)).


End Ideas.

(** ** Channel references ([parse_channel_or_id]) *)

Module Channel.

(** [sub in s]. *)
Fixpoint contains (sub s : list ascii) : bool :=
  match strip_prefix sub s with
  | Some _ => true
  | None =>
      match s with
      | [] => false
      | _ :: rest => contains sub rest
      end
  end.

(** [s.split(sep)] for a separator that is not empty, from left to
    right: [cur] is the piece being read, backwards, and [skip] counts
    the characters of a separator just found that are still to pass. *)
Fixpoint split_on (sep : list ascii) (skip : nat) (cur s : list ascii)
  : list (list ascii) :=
  match s with
  | [] => [reverse cur]
  | c :: rest =>
      match skip with
      | S k => split_on sep k cur rest
      | O =>
          match strip_prefix sep s with
          | Some _ => reverse cur :: split_on sep (length sep - 1) [] rest
          | None => split_on sep 0 (c :: cur) rest
          end
      end
  end.

Definition split (sep s : list ascii) : list (list ascii) :=
  split_on sep 0 [] s.

(** The two lookups [[1]] and [[0]] stand after a test that the
    separator occurs, and on a list that is never empty. *)
Definition parse_channel_or_id (s : string) : string :=
  let s := License.strip s in
  match strip_prefix (chars "UC") (chars s) with
  | Some _ => s
  | None =>
      if contains (chars "youtube.com") (chars s)
         && contains (chars "/channel/") (chars s)
      then
        let after := default [] (split (chars "/channel/") (chars s) !! 1%nat) in
        string_of_list_ascii (default [] (split (chars "/") after !! 0%nat))
      else s
  end.

End Channel.

(** ** Idea seeds ([_clean_term]) *)

Module Seed.

(** The class [[A-Za-z0-9 ']]. *)
Definition is_term_char (c : ascii) : bool :=
  is_upper c || is_lower c || is_digit c
  || ascii_eqb c " " || ascii_eqb c "'".

(** [re.sub(r"[^A-Za-z0-9 ']+", " ", t)]: every maximal run of characters
    outside the class becomes one space; [in_run] says that the character
    before is part of such a run. *)
Fixpoint sub_runs (in_run : bool) (s : list ascii) : list ascii :=
  match s with
  | [] => []
  | c :: rest =>
      if is_term_char c then c :: sub_runs false rest
      else if in_run then sub_runs true rest
      else " "%char :: sub_runs true rest
  end.

Definition stop : gset string :=
  list_to_set
    [ "make"; "made"; "doing"; "do"; "this"; "that"; "thing"; "stuff";
      "way"; "ways"; "day"; "best" ]%string.

(** [" ".join(words)]. *)
Fixpoint join (ws : list (list ascii)) : list ascii :=
  match ws with
  | [] => []
  | [w] => w
  | w :: rest => w ++ " "%char :: join rest
  end.

Definition is_cased (c : ascii) : bool := is_lower c || is_upper c.

Definition upper_char (c : ascii) : ascii :=
  if is_lower c then ascii_of_N (code c - 32) else c.

(** One character of [str.title()]: a letter is put in upper case when
    the character before it is not a letter, in lower case otherwise. *)
Definition title_char (prev_cased : bool) (c : ascii) : ascii :=
  if is_cased c then (if prev_cased then lower_char c else upper_char c)
  else c.

(** [s.title()]. *)
Fixpoint title (prev_cased : bool) (s : list ascii) : list ascii :=
  match s with
  | [] => []
  | c :: rest => title_char prev_cased c :: title (is_cased c) rest
  end.

Definition _clean_term (t : string) : string :=
  let t := lower (Wrap.strip_chars (sub_runs false (chars t))) in
  let words :=
    filter (fun w => string_of_list_ascii w ∉ stop) (Wrap.split_ws [] t) in
  let s := Wrap.strip_chars (join words) in
  match s with
  | [] => "Strategy"%string
  | _ => string_of_list_ascii (title false s)
  end.

End Seed.

(** * Properties *)

(** ** Facts about the numeric helpers *)

Lemma Qle_bool_true (a b : Q) : Qle_bool a b = true <-> a <= b.
Proof. apply Qle_bool_iff. Qed.

Lemma Qle_bool_false (a b : Q) : Qle_bool a b = false <-> b < a.
Proof.
  split; intros H.
  - apply Qnot_le_lt. intros Hle. apply Qle_bool_iff in Hle. congruence.
  - destruct (Qle_bool a b) eqn:E; [|reflexivity].
    apply Qle_bool_iff in E. exfalso. exact (Qlt_not_le _ _ H E).
Qed.

Lemma Qmin_comp_l (a a' b : Q) : a == a' -> Qmin a b == Qmin a' b.
Proof.
  intros H. unfold Qmin.
  destruct (Qle_bool a b) eqn:E1, (Qle_bool a' b) eqn:E2;
    try assumption; try reflexivity.
  - apply Qle_bool_true in E1. apply Qle_bool_false in E2.
    rewrite H in E1. exfalso. exact (Qlt_not_le _ _ E2 E1).
  - apply Qle_bool_false in E1. apply Qle_bool_true in E2.
    rewrite H in E1. exfalso. exact (Qlt_not_le _ _ E1 E2).
Qed.

Lemma Qmin_nonneg (a b : Q) : 0 <= a -> 0 <= b -> 0 <= Qmin a b.
Proof. intros Ha Hb. unfold Qmin. destruct (Qle_bool a b); assumption. Qed.

Lemma trunc_nonneg (q : Q) : 0 <= q -> trunc q = Qfloor q.
Proof.
  intros H. unfold trunc. apply Qle_bool_iff in H. now rewrite H.
Qed.

Lemma Qfloor_nonneg (q : Q) : 0 <= q -> (0 <= Qfloor q)%Z.
Proof. intros H. change 0%Z with (Qfloor 0). now apply Qfloor_resp_le. Qed.

Lemma trunc_comp (a b : Q) : a == b -> trunc a = trunc b.
Proof.
  intros H. unfold trunc.
  destruct (Qle_bool 0 a) eqn:E1, (Qle_bool 0 b) eqn:E2.
  - now apply Qfloor_comp.
  - apply Qle_bool_true in E1. apply Qle_bool_false in E2.
    rewrite H in E1. exfalso. exact (Qlt_not_le _ _ E2 E1).
  - apply Qle_bool_false in E1. apply Qle_bool_true in E2.
    rewrite H in E1. exfalso. exact (Qlt_not_le _ _ E1 E2).
  - now apply Qceiling_comp.
Qed.

(** ** SEO score *)

Lemma award_points (c : bool) (n pts : Z) :
  Seo.award c n pts = (pts + SeoSpec.points c n)%Z.
Proof. unfold Seo.award, SeoSpec.points. destruct c; lia. Qed.


Lemma scoring_rate_nonneg (r : Seo.pyfloat) : 0 <= SeoSpec.rate_for_scoring r.
Proof.
  destruct r as [| |q]; simpl; try apply Qle_refl.
  destruct (Qle_bool 0 q) eqn:E; [now apply Qle_bool_iff | apply Qle_refl].
Qed.

Lemma scoring_rate_code (r : Seo.pyfloat) :
  Seo.max_zero (Seo.float_or_zero r) == SeoSpec.rate_for_scoring r.
Proof.
  destruct r as [| |q]; simpl; try reflexivity.
  destruct (Qeq_bool q 0) eqn:Ez.
  - apply Qeq_bool_iff in Ez. simpl.
    destruct (Qle_bool 0 q) eqn:E; [now symmetry | reflexivity].
  - simpl. destruct (Qle_bool q 0) eqn:E1, (Qle_bool 0 q) eqn:E2;
      try reflexivity.
    + apply Qle_bool_true in E1, E2.
      apply Qeq_bool_neq in Ez. exfalso. apply Ez. now apply Qle_antisym.
    + apply Qle_bool_false in E1, E2. exfalso.
      exact (Qlt_irrefl _ (Qlt_trans _ _ _ E1 E2)).
Qed.

Lemma band_nonneg (x cap k : Q) :
  0 <= x -> 0 < cap -> 0 <= k -> 0 <= Qmin x cap / cap * k.
Proof.
  intros Hx Hc Hk. apply Qmult_le_0_compat; [|assumption].
  apply Qle_shift_div_l; [assumption|]. rewrite Qmult_0_l.
  apply Qmin_nonneg; [assumption | now apply Qlt_le_weak].
Qed.

Lemma band_code (r : Seo.pyfloat) (cap k : Q) :
  0 < cap -> 0 <= k ->
  trunc (Qmin (Seo.max_zero (Seo.float_or_zero r)) cap / cap * k)
  = Qfloor (Qmin (SeoSpec.rate_for_scoring r) cap / cap * k).
Proof.
  intros Hc Hk.
  rewrite (trunc_comp _ (Qmin (SeoSpec.rate_for_scoring r) cap / cap * k)).
  - apply trunc_nonneg, band_nonneg; auto using scoring_rate_nonneg.
  - now rewrite (Qmin_comp_l _ _ cap (scoring_rate_code r)).
Qed.


(** ** Engagement rates *)




(** ** Sorting *)

Section SortFacts.
Context {A : Type} (leb : A -> A -> bool).

Lemma insert_sorted_perm (x : A) (l : list A) :
  insert_sorted leb x l ≡ₚ x :: l.
Proof.
  induction l as [|y l IH]; simpl; [reflexivity|].
  destruct (leb y x); [|reflexivity].
  rewrite IH. apply Permutation_swap.
Qed.

Lemma stable_sort_perm (l : list A) : stable_sort leb l ≡ₚ l.
Proof.
  unfold stable_sort. rewrite <- (reverse_Permutation l) at 2.
  induction (reverse l) as [|x r IH]; simpl; [reflexivity|].
  now rewrite insert_sorted_perm, IH.
Qed.

Lemma stable_sort_length (l : list A) : length (stable_sort leb l) = length l.
Proof. apply Permutation_length, stable_sort_perm. Qed.

End SortFacts.

(** ** Retention insights *)

Lemma drops_length (df : list Retention.point) :
  length (Retention.drops df) = length df.
Proof.
  unfold Retention.drops. destruct df as [|p df]; [reflexivity|].
  cbn [map fmap list_fmap length]. f_equal.
  generalize (Retention.audienceWatchRatio p).
  induction df as [|p' df IH]; intros q; simpl; [reflexivity|].
  f_equal. apply IH.
Qed.

Lemma nsmallest_length (k : Z) (d : list (Retention.point * Q)) :
  (0 <= k)%Z ->
  length (Retention.nsmallest k d) = Z.to_nat (Z.min k (Z.of_nat (length d))).
Proof.
  intros Hk. unfold Retention.nsmallest.
  rewrite length_take, stable_sort_length. lia.
Qed.

Lemma drop_pct_flat (d : Q) : 0 <= d -> Retention.drop_pct d = 0.
Proof.
  intros Hd. unfold Retention.drop_pct, Qltb.
  assert (H : Qle_bool (- d * 100) 0 = true).
  { apply Qle_bool_iff. lra. }
  now rewrite H.
Qed.

Lemma insight_flat (video_secs : Z) (r : Retention.point * Q) :
  0 <= snd r ->
  Retention.insight_for video_secs r
  = RetentionSpec.flat_insight video_secs (fst r).
Proof.
  intros Hd. unfold Retention.insight_for, RetentionSpec.flat_insight.
  rewrite (drop_pct_flat _ Hd). reflexivity.
Qed.

Lemma filter_take_length {A} (f : A -> bool) (n : nat) (l : list A) :
  (length (List.filter f (take n l)) <= length (List.filter f l))%nat.
Proof.
  revert n. induction l as [|x l IH]; intros [|n]; simpl; try lia.
  specialize (IH n). destruct (f x); simpl; lia.
Qed.

Lemma filter_all_length {A} (f : A -> bool) (l : list A) :
  Forall (fun x => f x = true) l -> length (List.filter f l) = length l.
Proof.
  induction 1 as [|x l Hx _ IH]; simpl; [reflexivity|].
  rewrite Hx. simpl. now rewrite IH.
Qed.

Lemma filter_perm_length {A} (f : A -> bool) (l1 l2 : list A) :
  l1 ≡ₚ l2 -> length (List.filter f l1) = length (List.filter f l2).
Proof.
  induction 1 as [|x l1 l2 _ IH|x y l|l1 l2 l3 _ IH1 _ IH2]; simpl.
  - reflexivity.
  - destruct (f x); simpl; now rewrite IH.
  - destruct (f x), (f y); reflexivity.
  - now rewrite IH1.
Qed.

Lemma filter_zip_snd {A B} (f : B -> bool) (a : list A) (b : list B) :
  length a = length b ->
  length (List.filter (fun r => f (snd r)) (zip a b))
  = length (List.filter f b).
Proof.
  revert b. induction a as [|x a IH]; intros [|y b] Hl; simpl in *;
    try reflexivity; try discriminate.
  injection Hl as Hl. destruct (f y); simpl; now rewrite IH.
Qed.

Lemma negative_or_flat (d : Q) :
  {RetentionSpec.negative d = true} + {0 <= d}.
Proof.
  unfold RetentionSpec.negative, Qltb.
  destruct (Qle_bool 0 d) eqn:E; [right; now apply Qle_bool_iff | now left].
Qed.

(** C8: no insight is made up for an empty curve or for a duration that
    is not positive. *)
Theorem top_drop_insights_empty (df : list Retention.point)
    (video_secs k : Z) :
  df = [] \/ (video_secs <= 0)%Z ->
  Retention.top_drop_insights df video_secs k = [].
Proof.
  intros [-> | Hs]; [reflexivity|].
  unfold Retention.top_drop_insights. destruct df; [reflexivity|].
  apply Z.leb_le in Hs. now rewrite Hs.
Qed.

Lemma top_drop_insights_empty_witness :
  Retention.top_drop_insights
    [ {| Retention.elapsedVideoTimeRatio := 1 # 10;
         Retention.audienceWatchRatio := 9 # 10 |} ] 0 5 = [].
Proof. apply top_drop_insights_empty. right. lia. Defined.

(** C10: for a curve with points and a positive duration, and [k] not
    negative, the result has [min k n] insights, one per row of the [k]
    smallest changes; a selected row whose change is zero or positive is
    reported with 0.0%, and there is such a row whenever fewer than
    [min k n] changes are negative. *)
Theorem top_drop_insights_count (df : list Retention.point)
    (video_secs k : Z) :
  df <> [] -> (0 < video_secs)%Z -> (0 <= k)%Z ->
  length (Retention.top_drop_insights df video_secs k)
    = Z.to_nat (Z.min k (Z.of_nat (length df)))
  /\ Retention.top_drop_insights df video_secs k
     = map (Retention.insight_for video_secs)
         (Retention.nsmallest k (zip df (Retention.drops df)))
  /\ Forall (fun r => 0 <= snd r ->
               Retention.insight_for video_secs r
               = RetentionSpec.flat_insight video_secs (fst r))
       (Retention.nsmallest k (zip df (Retention.drops df)))
  /\ ((length (List.filter RetentionSpec.negative (Retention.drops df))
        < Z.to_nat (Z.min k (Z.of_nat (length df))))%nat ->
      Exists (fun r => 0 <= snd r)
        (Retention.nsmallest k (zip df (Retention.drops df)))).
Proof.
  intros Hdf Hs Hk.
  assert (Hrun : Retention.top_drop_insights df video_secs k
     = map (Retention.insight_for video_secs)
         (Retention.nsmallest k (zip df (Retention.drops df)))).
  { unfold Retention.top_drop_insights. destruct df; [congruence|].
    destruct (video_secs <=? 0)%Z eqn:E; [apply Z.leb_le in E; lia|reflexivity]. }
  assert (Hzip : length (zip df (Retention.drops df)) = length df).
  { rewrite length_zip_with, drops_length. lia. }
  split; [|split; [exact Hrun|split]].
  - rewrite Hrun, length_fmap, nsmallest_length by assumption. now rewrite Hzip.
  - apply Forall_forall. intros r _. apply insight_flat.
  - intros Hfew.
    destruct (Forall_Exists_dec (fun r => RetentionSpec.negative (snd r) = true)
                (fun r => 0 <= snd r)
                (fun r => negative_or_flat (snd r))
                (Retention.nsmallest k (zip df (Retention.drops df))))
      as [Hall | Hex]; [exfalso | exact Hex].
    pose proof (filter_all_length (fun r => RetentionSpec.negative (snd r)) _ Hall) as Hlen.
    rewrite nsmallest_length, Hzip in Hlen by assumption.
    unfold Retention.nsmallest in Hlen.
    pose proof (filter_take_length (fun r => RetentionSpec.negative (snd r))
                  (Z.to_nat k)
                  (stable_sort (fun a b => Qleb (snd a) (snd b))
                     (zip df (Retention.drops df)))) as Hle.
    rewrite (filter_perm_length _ _ _ (stable_sort_perm _ _)) in Hle.
    rewrite (filter_zip_snd RetentionSpec.negative) in Hle
      by (now rewrite drops_length).
    lia.
Qed.

Lemma top_drop_insights_count_witness :
  length (Retention.top_drop_insights
            [ {| Retention.elapsedVideoTimeRatio := 0;
                 Retention.audienceWatchRatio := 1 |};
              {| Retention.elapsedVideoTimeRatio := 1 # 2;
                 Retention.audienceWatchRatio := 1 |} ] 600 5) = 2%nat.
Proof.
  apply (top_drop_insights_count
           [ {| Retention.elapsedVideoTimeRatio := 0;
                Retention.audienceWatchRatio := 1 |};
             {| Retention.elapsedVideoTimeRatio := 1 # 2;
                Retention.audienceWatchRatio := 1 |} ] 600 5);
    [discriminate | lia | lia].
Defined.

(** ** Improvement advisor *)

Lemma dedup_cap_take (tips : list string) (seen : gset string)
    (out : list string) :
  (forall x, x ∈ seen <-> x ∈ out) ->
  NoDup (out ++ tips) ->
  (length out < 6)%nat ->
  Advisor.dedup_cap tips seen out = take 6 (out ++ tips).
Proof.
  revert seen out. induction tips as [|t rest IH]; intros seen out Hseen Hnd Hlen.
  - simpl. rewrite app_nil_r, take_ge by lia. reflexivity.
  - simpl.
    assert (Hfresh : t ∉ seen).
    { rewrite Hseen. apply NoDup_app in Hnd as (_ & Hdisj & _).
      intros Hin. apply (Hdisj _ Hin). left. }
    rewrite bool_decide_eq_false_2 by assumption.
    destruct (length (out ++ [t]) =? 6)%nat eqn:E.
    + apply Nat.eqb_eq in E.
      rewrite (cons_middle t out rest), app_assoc.
      now rewrite take_app_length' by (symmetry; exact E).
    + apply Nat.eqb_neq in E. rewrite length_app in E. simpl in E.
      rewrite IH.
      * now rewrite <- app_assoc.
      * intros x. rewrite elem_of_union, elem_of_singleton, elem_of_app,
          list_elem_of_singleton, Hseen. tauto.
      * now rewrite <- app_assoc.
      * rewrite length_app. simpl. lia.
Qed.

Lemma tips_fired (v : Advisor.video) (median_views : Z) :
  Advisor.improvements_for_video v median_views
  = match Advisor.dedup_cap (AdvisorSpec.fired v median_views) ∅ [] with
    | [] => [Advisor.tip_fallback]
    | out => out
    end
  /\ NoDup (AdvisorSpec.fired v median_views).
Proof.
  unfold Advisor.improvements_for_video, AdvisorSpec.fired, AdvisorSpec.rules,
    Advisor.append_if.
  destruct (Seo.str_len (default ""%string (Advisor.v_title v)) <? 45)%Z eqn:E1;
  destruct (70 <? Seo.str_len (default ""%string (Advisor.v_title v)))%Z eqn:E2;
    try (apply Z.ltb_lt in E1; apply Z.ltb_lt in E2; lia);
  destruct (negb (existsb is_digit (chars (default ""%string (Advisor.v_title v)))));
  destruct (negb (Seo.power_search (default ""%string (Advisor.v_title v))));
  destruct (Seo.str_len (default ""%string (Advisor.v_description v)) <? 200)%Z;
  destruct (negb (Seo._has_chapters (default ""%string (Advisor.v_description v))));
  destruct (negb (Seo._has_link (default ""%string (Advisor.v_description v))));
  destruct (default 0%Z (Advisor.v_comments v) =? 0)%Z;
  destruct (Qltb (inject_Z (default 0%Z (Advisor.v_views v)))
              (Advisor.view_floor median_views));
  (split; [reflexivity | apply (bool_decide_unpack _); vm_compute; exact I]).
Qed.


(** ** Counting words *)

Section SortedFacts.
Context {A : Type} (leb : A -> A -> bool).
Hypothesis leb_total : forall a b, leb a b = true \/ leb b a = true.
Hypothesis leb_trans :
  forall a b c, leb a b = true -> leb b c = true -> leb a c = true.

Let R (a b : A) : Prop := leb a b = true.

Lemma insert_sorted_sorted (x : A) (l : list A) :
  StronglySorted R l -> StronglySorted R (insert_sorted leb x l).
Proof.
  induction 1 as [|y l Hs IH Hall]; simpl.
  - constructor; [constructor | constructor].
  - destruct (leb y x) eqn:E.
    + constructor; [exact IH|].
      rewrite (insert_sorted_perm leb x l). constructor; assumption.
    + constructor; [constructor; assumption|].
      assert (Hxy : R x y) by (destruct (leb_total x y); [assumption|congruence]).
      constructor; [exact Hxy|].
      eapply Forall_impl; [exact Hall|]. intros z Hz. exact (leb_trans _ _ _ Hxy Hz).
Qed.

Lemma stable_sort_sorted (l : list A) : StronglySorted R (stable_sort leb l).
Proof.
  unfold stable_sort. induction (reverse l) as [|x r IH]; simpl.
  - constructor.
  - now apply insert_sorted_sorted.
Qed.

End SortedFacts.











(** ** Tokens *)



(** ** Channel health *)



Lemma weighted_overall_five (c e k s r : Q) :
  Report.weighted_overall
    [ ("Content Optimization", c); ("Engagement", e); ("Consistency", k);
      ("SEO/Discoverability", s); ("Retention", r) ]%string
  == (25 * c + 20 * e + 15 * k + 20 * s + 20 * r) / 100.
Proof.
  unfold Report.weighted_overall, Report.py_sum.
  cbn [map fmap list_fmap foldl fst snd].
  repeat match goal with
         | |- context [default 0 (Report.dict_get ?key Report.weights)] =>
             let v := eval vm_compute in
                        (default 0 (Report.dict_get key Report.weights)) in
             change (default 0 (Report.dict_get key Report.weights)) with v
         end.
  field.
Qed.


(** ** Per-video health *)

Lemma round_half_even_comp (a b : Q) :
  a == b -> round_half_even a = round_half_even b.
Proof.
  intros H. unfold round_half_even.
  rewrite (Qfloor_comp _ _ H).
  assert (Hc : Qcompare (a - inject_Z (Qfloor b)) (1 # 2)
               = Qcompare (b - inject_Z (Qfloor b)) (1 # 2)).
  { apply Qcompare_comp; [now rewrite H | reflexivity]. }
  now rewrite Hc.
Qed.

Lemma round_dec_comp (n : nat) (a b : Q) :
  a == b -> round_dec n a = round_dec n b.
Proof.
  intros H. unfold round_dec. destruct n.
  - now rewrite (round_half_even_comp _ _ H).
  - cbv zeta. f_equal. apply round_half_even_comp. now rewrite H.
Qed.

Section HealthFacts.
Variable fsqrt : Q -> Q.

Lemma vpm_z_rows (df : list Health.audited) :
  Health.vpm_z fsqrt df = map (fun r => Some (HealthSpec.zscore fsqrt df r)) df.
Proof.
  unfold Health.vpm_z, HealthSpec.zscore, HealthSpec.vpm_std,
    HealthSpec.vpm_mean, Health.zeros, column, s_fillna.
  cbv zeta. rewrite !map_map.
  destruct (s_std fsqrt 0 _) as [sd|]; [|reflexivity].
  destruct (Qeq_bool sd 0) eqn:E.
  - apply map_ext. intros r.
    destruct (s_mean _); [|reflexivity].
    now destruct (views_per_min (Health.base r)).
  - rewrite !map_map. apply map_ext. intros r.
    destruct (s_mean _) as [m|];
      destruct (views_per_min (Health.base r)) as [x|]; simpl;
      try reflexivity.
    now rewrite E.
Qed.

Lemma health_rows (z : Health.audited -> Q) (l : list Health.audited) :
  s_clip 0 100
    (s_round 1
       (s_add
          (s_sub
             (s_add
                (s_scale 60 (s_over 5 (s_shift 2 (s_clip (-2) 3
                   (map (fun r => Some (z r)) l)))))
                (s_scale 4 (s_clip 0 5 (s_fillna 0
                   (column like_rate (map Health.base l))))))
             (Health.int_col (map (fun p : Z => (Z.min 3 (Z.max 0 p) * 3)%Z)
                           (map Title.dup_word_penalty (map Health.diag l)))))
          (Health.int_col (map (fun b : bool => ((if b then 1 else 0) * 5)%Z)
                        (map Title.title_ok_len (map Health.diag l))))))
  = map (fun r =>
           Some (clip 0 100 (round_dec 1
             ((clip (-2) 3 (z r) + 2) / 5 * 60
              + clip 0 5 (default 0 (like_rate (Health.base r))) * 4
              - inject_Z (Z.min 3 (Z.max 0 (Title.dup_word_penalty (Health.diag r)))) * 3
              + (if Title.title_ok_len (Health.diag r) then 5 else 0))))) l.
Proof.
  induction l as [|r l IH]; [reflexivity|].
  unfold s_clip, s_round, s_add, s_sub, s_scale, s_over, s_shift, s_fillna,
    column, Health.int_col in *.
  cbn [map fmap list_fmap zip_with option_fmap option_map cell_map2].
  rewrite IH. apply (f_equal (fun x => x :: _)).
  apply (f_equal Some). apply (f_equal (clip 0 100)).
  apply round_dec_comp. rewrite inject_Z_mult.
  set (a := clip (-2) 3 (z r)). set (b := clip 0 5 _).
  set (m := inject_Z (Z.min _ _)).
  destruct (Title.title_ok_len (Health.diag r)).
  - change (inject_Z (1 * 5)) with 5. change (inject_Z 3) with 3. ring.
  - change (inject_Z (0 * 5)) with 0. change (inject_Z 3) with 3. ring.
Qed.

End HealthFacts.


(** ** View velocity *)






(** * Further properties of the scoring code *)

(** ** SEO score: cap, monotonicity *)

Lemma seo_score_sum (title desc : option string)
    (like_rate comment_rate : Seo.pyfloat) (dup_penalty : Z) :
  fst (Seo.seo_score_row title desc like_rate comment_rate dup_penalty)
  = Z.min 100
      (SeoSpec.title_points (Seo.or_empty title) dup_penalty
       + SeoSpec.description_points (Seo.or_empty desc)
       + SeoSpec.engagement_points like_rate comment_rate)%Z.
Proof.
  unfold Seo.seo_score_row, SeoSpec.title_points,
    SeoSpec.description_points, SeoSpec.engagement_points. cbn [fst].
  rewrite !award_points, !band_code by (reflexivity || discriminate).
  f_equal. lia.
Qed.

Lemma band_upper (x cap : Q) (k : Z) :
  0 < cap -> (0 <= k)%Z -> (Qfloor (Qmin x cap / cap * inject_Z k) <= k)%Z.
Proof.
  intros Hc Hk. rewrite <- (Qfloor_Z k) at 2. apply Qfloor_resp_le.
  assert (Hmin : Qmin x cap <= cap).
  { unfold Qmin. destruct (Qle_bool x cap) eqn:E;
      [now apply Qle_bool_iff | apply Qle_refl]. }
  assert (Hk' : 0 <= inject_Z k).
  { change 0 with (inject_Z 0). now rewrite <- Zle_Qle. }
  assert (Hd : Qmin x cap / cap <= 1).
  { apply Qle_shift_div_r; [assumption|]. now rewrite Qmult_1_l. }
  apply Qle_trans with (1 * inject_Z k).
  - now apply Qmult_le_compat_r.
  - rewrite Qmult_1_l. apply Qle_refl.
Qed.

Lemma band_mono (x y cap k : Q) :
  0 < cap -> 0 <= k -> x <= y ->
  (Qfloor (Qmin x cap / cap * k) <= Qfloor (Qmin y cap / cap * k))%Z.
Proof.
  intros Hc Hk Hxy. apply Qfloor_resp_le.
  apply Qmult_le_compat_r; [|assumption].
  apply Qmult_le_compat_r; [|apply Qlt_le_weak, Qinv_lt_0_compat; assumption].
  unfold Qmin.
  destruct (Qle_bool x cap) eqn:E1, (Qle_bool y cap) eqn:E2;
    try apply Qle_bool_true in E1; try apply Qle_bool_true in E2;
    try apply Qle_bool_false in E1; try apply Qle_bool_false in E2; lra.
Qed.

(** The awards can never add up to more than 100, so the final
    [min(100, pts)] of [seo_score_row] changes nothing: the score is the
    plain sum of the title, description and engagement points. *)
Theorem seo_score_cap_is_idle (title desc : option string)
    (like_rate comment_rate : Seo.pyfloat) (dup_penalty : Z) :
  fst (Seo.seo_score_row title desc like_rate comment_rate dup_penalty)
  = (SeoSpec.title_points (Seo.or_empty title) dup_penalty
     + SeoSpec.description_points (Seo.or_empty desc)
     + SeoSpec.engagement_points like_rate comment_rate)%Z
  /\ (SeoSpec.title_points (Seo.or_empty title) dup_penalty <= 40)%Z
  /\ (SeoSpec.description_points (Seo.or_empty desc) <= 35)%Z
  /\ (SeoSpec.engagement_points like_rate comment_rate <= 25)%Z.
Proof.
  assert (Ht : (SeoSpec.title_points (Seo.or_empty title) dup_penalty <= 40)%Z).
  { unfold SeoSpec.title_points, SeoSpec.points.
    repeat match goal with |- context [if ?c then _ else _] => destruct c end;
      lia. }
  assert (Hd : (SeoSpec.description_points (Seo.or_empty desc) <= 35)%Z).
  { unfold SeoSpec.description_points, SeoSpec.points.
    repeat match goal with |- context [if ?c then _ else _] => destruct c end;
      lia. }
  assert (He : (SeoSpec.engagement_points like_rate comment_rate <= 25)%Z).
  { unfold SeoSpec.engagement_points.
    pose proof (band_upper (SeoSpec.rate_for_scoring like_rate) 5 18
                  eq_refl ltac:(lia)).
    pose proof (band_upper (SeoSpec.rate_for_scoring comment_rate) 1 7
                  eq_refl ltac:(lia)).
    change (inject_Z 18) with 18 in *. change (inject_Z 7) with 7 in *. lia. }
  rewrite seo_score_sum. repeat split; try assumption. lia.
Qed.

(** A higher like rate or comment rate never lowers the score. *)
Theorem seo_score_monotone (title desc : option string)
    (l1 l2 c1 c2 : Q) (dup_penalty : Z) :
  l1 <= l2 -> c1 <= c2 ->
  (fst (Seo.seo_score_row title desc (Seo.PyNum l1) (Seo.PyNum c1) dup_penalty)
   <= fst (Seo.seo_score_row title desc (Seo.PyNum l2) (Seo.PyNum c2) dup_penalty))%Z.
Proof.
  intros Hl Hc. rewrite !seo_score_sum. apply Z.min_le_compat_l.
  apply Z.add_le_mono_l. unfold SeoSpec.engagement_points.
  assert (Hrate : forall a b, a <= b ->
            SeoSpec.rate_for_scoring (Seo.PyNum a)
            <= SeoSpec.rate_for_scoring (Seo.PyNum b)).
  { intros a b Hab. simpl.
    destruct (Qle_bool 0 a) eqn:E1, (Qle_bool 0 b) eqn:E2;
      try apply Qle_bool_true in E1; try apply Qle_bool_true in E2;
      try apply Qle_bool_false in E1; try apply Qle_bool_false in E2; lra. }
  apply Z.add_le_mono; apply band_mono; try reflexivity; try discriminate;
    now apply Hrate.
Qed.

Lemma seo_score_monotone_witness :
  (fst (Seo.seo_score_row (Some "Plain title"%string) None
          (Seo.PyNum 1) (Seo.PyNum 0) 0)
   <= fst (Seo.seo_score_row (Some "Plain title"%string) None
          (Seo.PyNum 4) (Seo.PyNum (1 # 2)) 0))%Z.
Proof.
  apply (seo_score_monotone (Some "Plain title"%string) None 1 4 0 (1 # 2) 0);
    discriminate.
Defined.

(** ** The advisor against the SEO notes *)

Lemma improvements_take (v : Advisor.video) (median_views : Z) :
  Advisor.improvements_for_video v median_views
  = match AdvisorSpec.fired v median_views with
    | [] => [Advisor.tip_fallback]
    | tips => take 6 tips
    end.
Proof.
  destruct (tips_fired v median_views) as [Hrun Hnd].
  rewrite dedup_cap_take in Hrun; [|set_solver|exact Hnd|simpl; lia].
  rewrite Hrun. simpl. destruct (AdvisorSpec.fired v median_views); reflexivity.
Qed.

Lemma tips_match_notes_bool (title desc : option string)
    (views comments : option Z) (median_views : Z)
    (like_rate comment_rate : Seo.pyfloat) (dup_penalty : Z) :
  let n := snd (Seo.seo_score_row title desc like_rate comment_rate dup_penalty) in
  let tips := Advisor.improvements_for_video
                {| Advisor.v_title := title; Advisor.v_description := desc;
                   Advisor.v_views := views; Advisor.v_comments := comments |}
                median_views in
  negb (Seo.has_number n) = bool_decide (Advisor.tip_number ∈ tips)
  /\ negb (Seo.title_len_ok n)
     = bool_decide (Advisor.tip_lengthen ∈ tips) || bool_decide (Advisor.tip_trim ∈ tips)
  /\ negb (Seo.power_word n) = bool_decide (Advisor.tip_power ∈ tips)
  /\ negb (Seo.desc_len_ok n) = bool_decide (Advisor.tip_description ∈ tips)
  /\ negb (Seo.chapters n) = bool_decide (Advisor.tip_chapters ∈ tips)
  /\ negb (Seo.links n) = bool_decide (Advisor.tip_link ∈ tips).
Proof.
  cbv zeta. rewrite improvements_take.
  unfold Seo.seo_score_row, AdvisorSpec.fired, AdvisorSpec.rules.
  cbn [snd Seo.has_number Seo.title_len_ok Seo.power_word Seo.desc_len_ok
       Seo.chapters Seo.links Advisor.v_title Advisor.v_description
       Advisor.v_views Advisor.v_comments].
  unfold Seo.or_empty, Seo._has_number.
  rewrite (Z.leb_antisym (Seo.str_len (default ""%string title)) 45),
    (Z.leb_antisym 70 (Seo.str_len (default ""%string title))),
    (Z.leb_antisym (Seo.str_len (default ""%string desc)) 200).
  destruct (Seo.str_len (default ""%string title) <? 45)%Z eqn:E1;
  destruct (70 <? Seo.str_len (default ""%string title))%Z eqn:E2;
    try (apply Z.ltb_lt in E1; apply Z.ltb_lt in E2; lia);
  destruct (existsb is_digit (chars (default ""%string title)));
  destruct (Seo.power_search (default ""%string title));
  destruct (Seo.str_len (default ""%string desc) <? 200)%Z;
  destruct (Seo._has_chapters (default ""%string desc));
  destruct (Seo._has_link (default ""%string desc));
  destruct (default 0%Z comments =? 0)%Z;
  destruct (Qltb (inject_Z (default 0%Z views)) (Advisor.view_floor median_views));
  vm_compute; repeat split; reflexivity.
Qed.

Lemma negb_bool_decide (b : bool) (P : Prop) `{Decision P} :
  negb b = bool_decide P -> (b = false <-> P).
Proof.
  intros Hb. rewrite <- (bool_decide_spec P), <- Hb. now destruct b.
Qed.

(** The six content rules of [improvements_for_video] can produce at most
    six tips, so the cap at 6 never drops one of them: for the same title
    and description, a content tip is returned exactly when
    [seo_score_row] notes the matching check as failed. *)
Theorem content_tips_match_seo_notes (title desc : option string)
    (views comments : option Z) (median_views : Z)
    (like_rate comment_rate : Seo.pyfloat) (dup_penalty : Z) :
  (Seo.has_number
     (snd (Seo.seo_score_row title desc like_rate comment_rate dup_penalty))
   = false
   <-> Advisor.tip_number
       ∈ Advisor.improvements_for_video
           {| Advisor.v_title := title; Advisor.v_description := desc;
              Advisor.v_views := views; Advisor.v_comments := comments |}
           median_views)
  /\ (Seo.power_word
        (snd (Seo.seo_score_row title desc like_rate comment_rate dup_penalty))
      = false
      <-> Advisor.tip_power
          ∈ Advisor.improvements_for_video
              {| Advisor.v_title := title; Advisor.v_description := desc;
                 Advisor.v_views := views; Advisor.v_comments := comments |}
              median_views)
  /\ (Seo.desc_len_ok
        (snd (Seo.seo_score_row title desc like_rate comment_rate dup_penalty))
      = false
      <-> Advisor.tip_description
          ∈ Advisor.improvements_for_video
              {| Advisor.v_title := title; Advisor.v_description := desc;
                 Advisor.v_views := views; Advisor.v_comments := comments |}
              median_views)
  /\ (Seo.chapters
        (snd (Seo.seo_score_row title desc like_rate comment_rate dup_penalty))
      = false
      <-> Advisor.tip_chapters
          ∈ Advisor.improvements_for_video
              {| Advisor.v_title := title; Advisor.v_description := desc;
                 Advisor.v_views := views; Advisor.v_comments := comments |}
              median_views)
  /\ (Seo.links
        (snd (Seo.seo_score_row title desc like_rate comment_rate dup_penalty))
      = false
      <-> Advisor.tip_link
          ∈ Advisor.improvements_for_video
              {| Advisor.v_title := title; Advisor.v_description := desc;
                 Advisor.v_views := views; Advisor.v_comments := comments |}
              median_views)
  /\ (Seo.title_len_ok
        (snd (Seo.seo_score_row title desc like_rate comment_rate dup_penalty))
      = false
      <-> (Advisor.tip_lengthen
           ∈ Advisor.improvements_for_video
               {| Advisor.v_title := title; Advisor.v_description := desc;
                  Advisor.v_views := views; Advisor.v_comments := comments |}
               median_views
           \/ Advisor.tip_trim
              ∈ Advisor.improvements_for_video
                  {| Advisor.v_title := title; Advisor.v_description := desc;
                     Advisor.v_views := views; Advisor.v_comments := comments |}
                  median_views)).
Proof.
  destruct (tips_match_notes_bool title desc views comments median_views
              like_rate comment_rate dup_penalty)
    as (Hn & Ht & Hp & Hd & Hc & Hl).
  cbv zeta in *.
  split; [exact (negb_bool_decide _ _ Hn)|].
  split; [exact (negb_bool_decide _ _ Hp)|].
  split; [exact (negb_bool_decide _ _ Hd)|].
  split; [exact (negb_bool_decide _ _ Hc)|].
  split; [exact (negb_bool_decide _ _ Hl)|].
  split.
  - intros Hf. rewrite Hf in Ht. simpl in Ht. symmetry in Ht.
    apply orb_true_iff in Ht as [H|H]; [left|right];
      exact (proj1 (bool_decide_eq_true _) H).
  - intros HH.
    destruct (Seo.title_len_ok _) eqn:Et; [|reflexivity].
    simpl in Ht. symmetry in Ht. apply orb_false_iff in Ht as [H1 H2].
    destruct HH as [H|H].
    + exact (False_ind _ (proj1 (bool_decide_eq_false _) H1 H)).
    + exact (False_ind _ (proj1 (bool_decide_eq_false _) H2 H)).
Qed.

(** ** Title diagnostics *)



(** ** Retention: which rows are reported *)

Lemma sorted_app_le {A} (R : A -> A -> Prop) (l1 l2 : list A) :
  StronglySorted R (l1 ++ l2) ->
  Forall (fun x => Forall (R x) l2) l1.
Proof.
  induction l1 as [|x l1 IH]; intros Hs; [constructor|].
  simpl in Hs. apply StronglySorted_inv in Hs as [Hs Hall].
  constructor; [|now apply IH].
  apply Forall_app in Hall. tauto.
Qed.

Lemma sorted_prefix {A} (R : A -> A -> Prop) (l1 l2 : list A) :
  StronglySorted R (l1 ++ l2) -> StronglySorted R l1.
Proof.
  induction l1 as [|x l1 IH]; intros Hs; [constructor|].
  simpl in Hs. apply StronglySorted_inv in Hs as [Hs Hall].
  constructor; [now apply IH|]. apply Forall_app in Hall. tauto.
Qed.

Lemma sorted_weaken {A} (R S : A -> A -> Prop) (l : list A) :
  (forall a b, R a b -> S a b) -> StronglySorted R l -> StronglySorted S l.
Proof.
  intros HRS. induction 1 as [|x l _ IH Hall]; constructor; [exact IH|].
  eapply Forall_impl; [exact Hall|]. intros y. apply HRS.
Qed.

Lemma top_drop_insights_run (df : list Retention.point) (video_secs k : Z) :
  df <> [] -> (0 < video_secs)%Z ->
  Retention.top_drop_insights df video_secs k
  = map (Retention.insight_for video_secs)
      (Retention.nsmallest k (zip df (Retention.drops df))).
Proof.
  intros Hdf Hs. unfold Retention.top_drop_insights.
  destruct df; [congruence|].
  destruct (video_secs <=? 0)%Z eqn:E; [apply Z.leb_le in E; lia|reflexivity].
Qed.

(** The insights are about the rows with the most negative change, the
    worst first: the reported rows are in ascending order of change, and
    no row left out has a smaller change than a reported one. *)
Theorem top_drop_insights_worst_first (df : list Retention.point)
    (video_secs k : Z) :
  df <> [] -> (0 < video_secs)%Z ->
  exists selected rest : list (Retention.point * Q),
    Retention.top_drop_insights df video_secs k
    = map (Retention.insight_for video_secs) selected
    /\ selected ++ rest ≡ₚ zip df (Retention.drops df)
    /\ StronglySorted (fun a b => snd a <= snd b) selected
    /\ Forall (fun r => Forall (fun r' => snd r <= snd r') rest) selected.
Proof.
  intros Hdf Hs.
  set (d := zip df (Retention.drops df)).
  set (leb := fun a b : Retention.point * Q => Qleb (snd a) (snd b)).
  exists (take (Z.to_nat k) (stable_sort leb d)),
         (drop (Z.to_nat k) (stable_sort leb d)).
  assert (Hsorted : StronglySorted (fun a b => snd a <= snd b)
                      (stable_sort leb d)).
  { apply (sorted_weaken (fun a b => leb a b = true)).
    - intros a b Hab. now apply Qle_bool_iff.
    - apply (stable_sort_sorted leb).
    + intros a b. unfold leb, Qleb.
      destruct (Qle_bool (snd a) (snd b)) eqn:E; [now left|right].
      apply Qle_bool_false in E. apply Qle_bool_iff. lra.
    + intros a b c H1 H2. unfold leb, Qleb in *.
      apply Qle_bool_iff in H1, H2. apply Qle_bool_iff. lra. }
  rewrite <- (take_drop (Z.to_nat k) (stable_sort leb d)) in Hsorted.
  split; [now apply top_drop_insights_run|]. split.
  - rewrite take_drop. apply stable_sort_perm.
  - split; [eapply sorted_prefix; exact Hsorted | now apply sorted_app_le].
Qed.

Lemma top_drop_insights_worst_first_witness :
  exists selected rest : list (Retention.point * Q),
    Retention.top_drop_insights
      [ {| Retention.elapsedVideoTimeRatio := 0;
           Retention.audienceWatchRatio := 1 |};
        {| Retention.elapsedVideoTimeRatio := 1 # 10;
           Retention.audienceWatchRatio := 4 # 10 |} ] 600 1
    = map (Retention.insight_for 600) selected
    /\ selected ++ rest
       ≡ₚ zip [ {| Retention.elapsedVideoTimeRatio := 0;
                  Retention.audienceWatchRatio := 1 |};
               {| Retention.elapsedVideoTimeRatio := 1 # 10;
                  Retention.audienceWatchRatio := 4 # 10 |} ]
            (Retention.drops
               [ {| Retention.elapsedVideoTimeRatio := 0;
                    Retention.audienceWatchRatio := 1 |};
                 {| Retention.elapsedVideoTimeRatio := 1 # 10;
                    Retention.audienceWatchRatio := 4 # 10 |} ])
    /\ StronglySorted (fun a b => snd a <= snd b) selected
    /\ Forall (fun r => Forall (fun r' => snd r <= snd r') rest) selected.
Proof.
  apply (top_drop_insights_worst_first
           [ {| Retention.elapsedVideoTimeRatio := 0;
                Retention.audienceWatchRatio := 1 |};
             {| Retention.elapsedVideoTimeRatio := 1 # 10;
                Retention.audienceWatchRatio := 4 # 10 |} ] 600 1);
    [discriminate | lia].
Defined.

(** ** Channel health: bounds *)

Lemma Qsum_nonneg (l : list Q) : Forall (fun q => 0 <= q) l -> 0 <= Qsum l.
Proof.
  induction 1 as [|x l Hx _ IH]; simpl; [apply Qle_refl|]. lra.
Qed.

Lemma Qmean_nonneg (l : list Q) : Forall (fun q => 0 <= q) l -> 0 <= Qmean l.
Proof.
  intros H. unfold Qmean. destruct l as [|x l].
  - simpl. apply Qle_refl.
  - apply Qle_shift_div_l.
    + change 0 with (inject_Z 0). rewrite <- Zlt_Qlt. simpl. lia.
    + rewrite Qmult_0_l. now apply Qsum_nonneg.
Qed.

Lemma avg_nonneg (seq : list Report.cell) :
  Forall Conditions.not_negative seq -> 0 <= Report._avg seq.
Proof.
  intros H. unfold Report._avg.
  assert (Hv : Forall (fun q => 0 <= q) (omap Report.numeric seq)).
  { induction H as [|c l Hc _ IH]; simpl; [constructor|].
    destruct c; simpl; try exact IH. constructor; assumption. }
  destruct (omap Report.numeric seq) eqn:E; [apply Qle_refl|].
  now apply Qmean_nonneg.
Qed.

Lemma py_min_le_l (a b : Q) : Report.py_min a b <= a.
Proof.
  unfold Report.py_min, Qltb. destruct (Qle_bool a b) eqn:E; simpl.
  - apply Qle_refl.
  - apply Qle_bool_false in E. lra.
Qed.

Lemma py_min_nonneg (a b : Q) : 0 <= a -> 0 <= b -> 0 <= Report.py_min a b.
Proof.
  intros Ha Hb. unfold Report.py_min. destruct (Qltb b a); assumption.
Qed.

Lemma py_max_ge_l (a b : Q) : a <= Report.py_max a b.
Proof.
  unfold Report.py_max, Qltb. destruct (Qle_bool b a) eqn:E; simpl.
  - apply Qle_refl.
  - apply Qle_bool_false in E. lra.
Qed.

Lemma py_max_le (a b c : Q) : a <= c -> b <= c -> Report.py_max a b <= c.
Proof.
  intros Ha Hb. unfold Report.py_max. destruct (Qltb a b); assumption.
Qed.

Lemma channel_health_parts (videos : list Report.video) :
  exists c e k s r : Q,
    Report.pillars (Report.channel_health_score videos)
    = [ ("Content Optimization", c); ("Engagement", e); ("Consistency", k);
        ("SEO/Discoverability", s); ("Retention", r) ]%string
    /\ Report.overall (Report.channel_health_score videos)
       == (25 * c + 20 * e + 15 * k + 20 * s + 20 * r) / 100
    /\ c = Report.py_min 100 (Report._avg (map Report.seo_score videos))
    /\ e = match Report.er_list videos with
           | [] => Report.py_max 0
                     (Report.py_min 100 (Report._avg (map Report.ctr videos)))
           | _ => Report.py_max 0
                    (Report.py_min 100
                       (Report._avg (map Report.of_fcell (Report.er_list videos)) * 2))
           end
    /\ k = 70
    /\ s = (if Qeq_bool (Report._avg (map Report.ctr videos)) 0
            then Report.py_min 100
                   (Report._avg (map Report.seo_score videos) * (9 # 10))
            else Report.py_min 100 (Report._avg (map Report.ctr videos) * 10))
    /\ r = Report.py_min 100
             (50 + Report._avg (map Report.watch_time_hours videos) * 5).
Proof.
  unfold Report.channel_health_score.
  do 5 eexists. split; [reflexivity|]. split.
  - cbn [Report.overall]. apply weighted_overall_five.
  - repeat split; reflexivity.
Qed.

(** No pillar and no overall score ever exceeds 100, whatever the data,
    and the Engagement pillar is never negative; when no SEO score, CTR
    or watch time is negative, every pillar and the overall score lie
    between 0 and 100. *)
Theorem channel_health_bounds (videos : list Report.video) :
  Forall (fun kv => snd kv <= 100)
    (Report.pillars (Report.channel_health_score videos))
  /\ Report.overall (Report.channel_health_score videos) <= 100
  /\ (Forall (fun v => Conditions.not_negative (Report.seo_score v)
                       /\ Conditions.not_negative (Report.ctr v)
                       /\ Conditions.not_negative (Report.watch_time_hours v))
        videos ->
      Forall (fun kv => 0 <= snd kv)
        (Report.pillars (Report.channel_health_score videos))
      /\ 0 <= Report.overall (Report.channel_health_score videos)).
Proof.
  destruct (channel_health_parts videos)
    as (c & e & k & s & r & Hp & Ho & Hc & He & Hk & Hs & Hr).
  rewrite Hp, Ho.
  assert (Hc100 : c <= 100) by (rewrite Hc; apply py_min_le_l).
  assert (He100 : e <= 100).
  { rewrite He. destruct (Report.er_list videos);
      (apply py_max_le; [discriminate | apply py_min_le_l]). }
  assert (He0 : 0 <= e).
  { rewrite He. destruct (Report.er_list videos); apply py_max_ge_l. }
  assert (Hs100 : s <= 100).
  { rewrite Hs. destruct (Qeq_bool _ 0); apply py_min_le_l. }
  assert (Hr100 : r <= 100) by (rewrite Hr; apply py_min_le_l).
  split; [|split].
  - repeat constructor; simpl; try assumption. rewrite Hk. discriminate.
  - rewrite Hk. apply Qle_shift_div_r; [reflexivity|]. lra.
  - intros Hnn.
    assert (Hseo : 0 <= Report._avg (map Report.seo_score videos)).
    { apply avg_nonneg. apply Forall_fmap. eapply Forall_impl; [exact Hnn|].
      simpl. tauto. }
    assert (Hctr : 0 <= Report._avg (map Report.ctr videos)).
    { apply avg_nonneg. apply Forall_fmap. eapply Forall_impl; [exact Hnn|].
      simpl. tauto. }
    assert (Hwt : 0 <= Report._avg (map Report.watch_time_hours videos)).
    { apply avg_nonneg. apply Forall_fmap. eapply Forall_impl; [exact Hnn|].
      simpl. tauto. }
    assert (Hc0 : 0 <= c) by (rewrite Hc; apply py_min_nonneg; [discriminate|assumption]).
    assert (Hs0 : 0 <= s).
    { rewrite Hs. destruct (Qeq_bool _ 0);
        (apply py_min_nonneg; [discriminate|]); lra. }
    assert (Hr0 : 0 <= r).
    { rewrite Hr. apply py_min_nonneg; [discriminate|]. lra. }
    split.
    + repeat constructor; simpl; try assumption. rewrite Hk. discriminate.
    + rewrite Hk. apply Qle_shift_div_l; [reflexivity|]. lra.
Qed.

(** ** Durations *)

Lemma chars_of_list (l : list ascii) : chars (string_of_list_ascii l) = l.
Proof. apply list_ascii_of_string_of_list_ascii. Qed.

Lemma digit_value_range (c : ascii) :
  is_digit c = true -> (0 <= Z.of_N (code c) - 48 <= 9)%Z.
Proof.
  unfold is_digit, in_range. intros H.
  apply andb_true_iff in H as [H1 H2].
  apply N.leb_le in H1, H2. lia.
Qed.

Lemma int_of_digits_from (acc : Z) (num : list ascii) :
  (0 <= acc)%Z -> Forall (fun c => is_digit c = true) num ->
  (0 <= foldl (fun acc c => (acc * 10 + (Z.of_N (code c) - 48))%Z) acc num)%Z.
Proof.
  intros Hacc Hd. revert acc Hacc.
  induction Hd as [|c num Hc _ IH]; intros acc Hacc; simpl; [assumption|].
  apply IH. pose proof (digit_value_range c Hc). lia.
Qed.

Lemma unit_seconds_nonneg (ch : ascii) : (0 <= Duration.unit_seconds ch)%Z.
Proof.
  unfold Duration.unit_seconds.
  repeat match goal with |- context [if ?c then _ else _] => destruct c end;
    lia.
Qed.

Lemma duration_loop_nonneg (d num : list ascii) (total : Z) :
  (0 <= total)%Z -> Forall (fun c => is_digit c = true) num ->
  (0 <= Duration.duration_loop d num total)%Z.
Proof.
  revert num total. induction d as [|ch rest IH]; intros num total Ht Hn;
    simpl; [assumption|].
  destruct (is_digit ch) eqn:E.
  - apply IH; [assumption|]. apply Forall_app. split; [assumption|].
    now constructor.
  - destruct num as [|c num]; [now apply IH|].
    apply IH; [|constructor].
    pose proof (int_of_digits_from 0 (c :: num) ltac:(lia) Hn) as Hv.
    pose proof (unit_seconds_nonneg ch).
    unfold Duration.int_of_digits. nia.
Qed.

Lemma duration_loop_digits (ds rest num : list ascii) (total : Z) :
  Forall (fun c => is_digit c = true) ds ->
  Duration.duration_loop (ds ++ rest) num total
  = Duration.duration_loop rest (num ++ ds) total.
Proof.
  intros Hd. revert num. induction Hd as [|c ds Hc _ IH]; intros num; simpl.
  - now rewrite app_nil_r.
  - rewrite Hc, IH, <- app_assoc. reflexivity.
Qed.

(** One [<digits><designator>] group. *)
Lemma duration_loop_group (ds rest : list ascii) (ch : ascii) (total : Z) :
  Forall (fun c => is_digit c = true) ds -> ds <> [] ->
  is_digit ch = false ->
  Duration.duration_loop (ds ++ ch :: rest) [] total
  = Duration.duration_loop rest []
      (total + Duration.int_of_digits ds * Duration.unit_seconds ch)%Z.
Proof.
  intros Hd Hne Hch. rewrite duration_loop_digits by assumption.
  simpl. rewrite Hch. destruct ds; [congruence|reflexivity].
Qed.

(** A duration [PT<h>H<m>M<s>S], each number written with one or more
    decimal digits, parses to [3600*h + 60*m + s] seconds. *)
Theorem parse_duration_hms (h m s : list ascii) :
  Forall (fun c => is_digit c = true) h -> h <> [] ->
  Forall (fun c => is_digit c = true) m -> m <> [] ->
  Forall (fun c => is_digit c = true) s -> s <> [] ->
  Duration.parse_yt_duration_iso8601
    (string_of_list_ascii
       ("P" :: "T" :: h ++ "H" :: m ++ "M" :: s ++ ["S"])%char)
  = (3600 * Duration.int_of_digits h + 60 * Duration.int_of_digits m
     + Duration.int_of_digits s)%Z.
Proof.
  intros Hh Hh0 Hm Hm0 Hs Hs0.
  unfold Duration.parse_yt_duration_iso8601. rewrite chars_of_list.
  change (strip_prefix (chars "PT")
            ("P" :: "T" :: h ++ "H" :: m ++ "M" :: s ++ ["S"])%char)
    with (Some (h ++ "H" :: m ++ "M" :: s ++ ["S"])%char).
  cbv beta iota.
  rewrite !duration_loop_group by (assumption || reflexivity).
  simpl. change (Duration.unit_seconds "H") with 3600%Z.
  change (Duration.unit_seconds "M") with 60%Z.
  change (Duration.unit_seconds "S") with 1%Z. lia.
Qed.

Lemma parse_duration_hms_witness :
  Duration.parse_yt_duration_iso8601 "PT1H02M33S" = 3753%Z.
Proof.
  apply (parse_duration_hms ["1"%char] ["0"; "2"]%char ["3"; "3"]%char);
    try discriminate; repeat constructor.
Defined.

Lemma strip_prefix_app (p l l' rest : list ascii) :
  strip_prefix p l = Some rest -> strip_prefix p (l ++ l') = Some (rest ++ l').
Proof.
  revert l. induction p as [|a p IH]; intros l H; simpl in *.
  - now injection H as ->.
  - destruct l as [|b l]; [discriminate|]. simpl.
    destruct (ascii_eqb a b); [now apply IH | discriminate].
Qed.

Lemma digit_not_letter (c x : ascii) :
  is_digit c = true -> (64 < code x)%N -> ascii_eqb x c = false.
Proof.
  unfold is_digit, in_range, ascii_eqb. intros H Hx.
  apply andb_true_iff in H as [_ H]. apply N.leb_le in H.
  apply N.eqb_neq. lia.
Qed.

(** A string that does not start with [PT] (an empty one, or a duration
    of days such as [P1DT2H]) parses to 0; the result is never negative;
    and a trailing number with no designator after it is dropped. *)
Theorem parse_duration_edges (d : string) :
  (strip_prefix (chars "PT") (chars d) = None ->
   Duration.parse_yt_duration_iso8601 d = 0%Z)
  /\ (0 <= Duration.parse_yt_duration_iso8601 d)%Z
  /\ (forall digits : list ascii,
        Forall (fun c => is_digit c = true) digits ->
        Duration.parse_yt_duration_iso8601
          (string_of_list_ascii (chars d ++ digits))
        = Duration.parse_yt_duration_iso8601 d).
Proof.
  unfold Duration.parse_yt_duration_iso8601.
  split; [|split].
  - now intros ->.
  - destruct (strip_prefix _ _); [|lia].
    apply duration_loop_nonneg; [lia|constructor].
  - intros digits Hd. rewrite chars_of_list.
    assert (Htail : forall l num total,
              Duration.duration_loop (l ++ digits) num total
              = Duration.duration_loop l num total).
    { induction l as [|c l IH]; intros num total; simpl.
      - rewrite <- (app_nil_r digits), duration_loop_digits by assumption.
        reflexivity.
      - destruct (is_digit c); [apply IH|]. destruct num; apply IH. }
    destruct (strip_prefix (chars "PT") (chars d)) as [rest|] eqn:E.
    + rewrite (strip_prefix_app _ _ digits _ E). apply Htail.
    + assert (Hnone : strip_prefix (chars "PT") (chars d ++ digits) = None).
      { change (chars "PT") with ["P"; "T"]%char in *.
        destruct (chars d) as [|a [|b l]]; simpl in *.
        - destruct Hd as [|x ds Hx _]; [reflexivity|].
          now rewrite (digit_not_letter x "P" Hx).
        - destruct (ascii_eqb "P" a); [|reflexivity].
          destruct Hd as [|x ds Hx _]; [reflexivity|].
          now rewrite (digit_not_letter x "T" Hx).
        - destruct (ascii_eqb "P" a); [|reflexivity].
          destruct (ascii_eqb "T" b); [discriminate|reflexivity]. }
      now rewrite Hnone.
Qed.

(** ** Requests of at most 50 ids *)

Lemma chunks_concat_take (ids : list string) (m : nat) :
  concat (map (fun i => take 50 (drop i ids))
            (map (fun j => (j * 50)%nat) (seq 0 m)))
  = take (m * 50) ids.
Proof.
  induction m as [|m IH]; [reflexivity|].
  rewrite seq_S, !map_app, concat_app, IH. simpl.
  rewrite app_nil_r, take_take_drop. f_equal. lia.
Qed.

(** The ids are sent in consecutive requests that together hold every id
    once, in order; each request holds between 1 and 50 ids, and there
    are [ceil(n / 50)] of them (none for an empty list). *)
Theorem chunks_cover (ids : list string) :
  concat (Fetch.chunks ids) = ids
  /\ Forall (fun c => (1 <= length c <= 50)%nat) (Fetch.chunks ids)
  /\ length (Fetch.chunks ids) = ((length ids + 49) / 50)%nat.
Proof.
  unfold Fetch.chunks, Fetch.range_step.
  replace (length ids + 50 - 1)%nat with (length ids + 49)%nat by lia.
  set (m := ((length ids + 49) / 50)%nat).
  assert (Hm : (length ids <= m * 50)%nat).
  { unfold m. pose proof (Nat.div_mod_eq (length ids + 49) 50).
    pose proof (Nat.mod_upper_bound (length ids + 49) 50). lia. }
  assert (Hm' : forall j, (j < m)%nat -> (j * 50 < length ids)%nat).
  { intros j Hj. unfold m in Hj.
    pose proof (Nat.div_mod_eq (length ids + 49) 50).
    pose proof (Nat.mod_upper_bound (length ids + 49) 50). nia. }
  split; [|split].
  - rewrite chunks_concat_take. now apply take_ge.
  - apply Forall_forall. intros c Hc.
    apply list_elem_of_fmap in Hc as (i & -> & Hi).
    apply list_elem_of_fmap in Hi as (j & -> & Hj).
    apply elem_of_seq in Hj. specialize (Hm' j ltac:(lia)).
    rewrite length_take, length_drop. lia.
  - now rewrite !length_map, length_seq.
Qed.

(** ** Keyword density *)




(** ** License store *)


Lemma has_license_none (key : string) (f : License.file) :
  License.has_license key f = false
  <-> License._lic_load f !! License.strip key = None.
Proof.
  unfold License.has_license. rewrite bool_decide_eq_false.
  rewrite <- eq_None_not_Some. reflexivity.
Qed.


(** A key that was deleted is no longer found; keys that differ after
    stripping are not affected; and deleting a key that is not stored
    leaves the file as it was, a missing or unreadable file included. *)
Theorem delete_license_gone (key : string) (f : License.file) :
  License.has_license key (License.delete_license key f) = false
  /\ (forall other,
        License.strip other <> License.strip key ->
        License.has_license other (License.delete_license key f)
        = License.has_license other f)
  /\ (License.has_license key f = false -> License.delete_license key f = f).
Proof.
  unfold License.delete_license. cbv zeta.
  destruct (bool_decide (is_Some (License._lic_load f !! License.strip key)))
    eqn:E.
  - split; [|split].
    + apply has_license_none. simpl. apply lookup_delete_eq.
    + intros other Hne. unfold License.has_license. simpl.
      now rewrite lookup_delete_ne by congruence.
    + unfold License.has_license. congruence.
  - split; [exact E|]. split; reflexivity.
Qed.

(** ** Stripping *)

Lemma lstrip_spaces (ws l : list ascii) :
  Forall (fun c => License.is_space c = true) ws ->
  License.lstrip (ws ++ l) = License.lstrip l.
Proof.
  induction 1 as [|c ws Hc _ IH]; [reflexivity|]. simpl. now rewrite Hc.
Qed.

Lemma lstrip_all_spaces (ws : list ascii) :
  Forall (fun c => License.is_space c = true) ws -> License.lstrip ws = [].
Proof.
  intros H. rewrite <- (app_nil_r ws), lstrip_spaces by assumption.
  reflexivity.
Qed.

Lemma lstrip_app_spaces (l ws : list ascii) :
  Forall (fun c => License.is_space c = true) ws ->
  License.lstrip (l ++ ws)
  = match License.lstrip l with
    | [] => []
    | _ => License.lstrip l ++ ws
    end.
Proof.
  intros Hws. induction l as [|c l IH]; simpl.
  - now apply lstrip_all_spaces.
  - destruct (License.is_space c); [exact IH | reflexivity].
Qed.

Lemma strip_padding (ws1 ws2 l : list ascii) :
  Forall (fun c => License.is_space c = true) ws1 ->
  Forall (fun c => License.is_space c = true) ws2 ->
  reverse (License.lstrip (reverse (License.lstrip (ws1 ++ l ++ ws2))))
  = reverse (License.lstrip (reverse (License.lstrip l))).
Proof.
  intros H1 H2. rewrite lstrip_spaces, lstrip_app_spaces by assumption.
  destruct (License.lstrip l) as [|c t] eqn:E; [reflexivity|].
  rewrite reverse_app, lstrip_spaces; [reflexivity|].
  now apply Forall_reverse.
Qed.

(** Whitespace typed around a key does not matter: the padded key is
    found exactly when the key is, and adding or deleting the padded key
    changes the file as adding or deleting the key does. *)
Theorem license_key_padding (ws1 ws2 : list ascii) (key note : string)
    (w : Metrics.world) (f : License.file) :
  Forall (fun c => License.is_space c = true) ws1 ->
  Forall (fun c => License.is_space c = true) ws2 ->
  License.has_license (string_of_list_ascii (ws1 ++ chars key ++ ws2)) f
  = License.has_license key f
  /\ License.add_license (string_of_list_ascii (ws1 ++ chars key ++ ws2))
       note w f
     = License.add_license key note w f
  /\ License.delete_license (string_of_list_ascii (ws1 ++ chars key ++ ws2)) f
     = License.delete_license key f.
Proof.
  intros H1 H2.
  assert (Hs : License.strip (string_of_list_ascii (ws1 ++ chars key ++ ws2))
               = License.strip key).
  { unfold License.strip. rewrite chars_of_list. f_equal.
    now apply strip_padding. }
  unfold License.has_license, License.add_license, License.delete_license.
  now rewrite Hs.
Qed.

Lemma license_key_padding_witness :
  License.has_license " AB-1 " (Some {[ "AB-1"%string :=
     {| License.note := ""%string; License.created_utc := 0 |} ]})
  = License.has_license "AB-1" (Some {[ "AB-1"%string :=
     {| License.note := ""%string; License.created_utc := 0 |} ]}).
Proof.
  apply (license_key_padding [" "%char] [" "%char] "AB-1" ""%string
           Samples.at_ten
           (Some {[ "AB-1"%string :=
              {| License.note := ""%string; License.created_utc := 0 |} ]}));
    repeat constructor.
Defined.

(** ** Wrapping text *)

Lemma lstrip_tight (x : list ascii) :
  WrapSpec.starts_tight x -> License.lstrip x = x.
Proof. destruct x as [|c x]; simpl; [reflexivity|]. now intros ->. Qed.

Lemma strip_chars_tight (x : list ascii) :
  WrapSpec.starts_tight x -> WrapSpec.starts_tight (reverse x) ->
  Wrap.strip_chars x = x.
Proof.
  intros H1 H2. unfold Wrap.strip_chars.
  now rewrite (lstrip_tight x H1), (lstrip_tight _ H2), reverse_involutive.
Qed.

Lemma word_tight (w : list ascii) :
  WrapSpec.word w ->
  WrapSpec.starts_tight w /\ WrapSpec.starts_tight (reverse w).
Proof.
  intros [Hne Hall]. split.
  - destruct Hall; [congruence|assumption].
  - apply Forall_reverse in Hall.
    destruct Hall; [exact I|assumption].
Qed.

Lemma starts_tight_app (x y : list ascii) :
  x <> [] -> WrapSpec.starts_tight x -> WrapSpec.starts_tight (x ++ y).
Proof. destruct x; [congruence|]. intros _ H. exact H. Qed.

Lemma join_cons (w : list ascii) (ws : list (list ascii)) :
  ws <> [] -> WrapSpec.join (w :: ws) = w ++ " "%char :: WrapSpec.join ws.
Proof. destruct ws; [congruence|reflexivity]. Qed.

Lemma join_snoc (ws : list (list ascii)) (w : list ascii) :
  ws <> [] ->
  WrapSpec.join (ws ++ [w]) = WrapSpec.join ws ++ " "%char :: w.
Proof.
  induction ws as [|v ws IH]; [congruence|]. intros _.
  destruct ws as [|u ws]; [reflexivity|].
  change ((v :: u :: ws) ++ [w]) with (v :: ((u :: ws) ++ [w])).
  rewrite join_cons by (destruct ws; discriminate).
  rewrite IH by discriminate.
  rewrite (join_cons v (u :: ws)) by discriminate.
  now rewrite <- app_assoc.
Qed.

Lemma join_nonempty (ws : list (list ascii)) :
  Forall WrapSpec.word ws -> ws <> [] -> WrapSpec.join ws <> [].
Proof.
  intros Hw Hne. destruct Hw as [|w ws [Hw _] _]; [congruence|].
  destruct ws; simpl; [assumption|].
  destruct w; [congruence|discriminate].
Qed.

Lemma join_tight (ws : list (list ascii)) :
  Forall WrapSpec.word ws ->
  WrapSpec.starts_tight (WrapSpec.join ws)
  /\ WrapSpec.starts_tight (reverse (WrapSpec.join ws)).
Proof.
  intros Hw. split.
  - destruct Hw as [|w ws Hw _]; [exact I|].
    destruct ws; simpl; [apply (word_tight w Hw)|].
    apply starts_tight_app; [apply Hw | apply (word_tight w Hw)].
  - induction ws as [|w ws IH] using rev_ind; [exact I|].
    apply Forall_app in Hw as [Hws Hw]. inversion Hw as [|? ? Hw' _]; subst.
    destruct ws as [|v ws]; [apply (word_tight w Hw')|].
    rewrite join_snoc by discriminate.
    rewrite reverse_app, reverse_cons.
    rewrite <- app_assoc. apply starts_tight_app.
    + intros Hr. apply (f_equal reverse) in Hr.
      rewrite reverse_involutive in Hr. apply Hw'. exact Hr.
    + apply (word_tight w Hw').
Qed.

(** Adding a word to a line as the loop does. *)
Lemma strip_join_snoc (ws : list (list ascii)) (w : list ascii) :
  Forall WrapSpec.word ws -> WrapSpec.word w ->
  Wrap.strip_chars (WrapSpec.join ws ++ " "%char :: w)
  = WrapSpec.join (ws ++ [w]).
Proof.
  intros Hws Hw. destruct ws as [|v ws].
  - simpl. unfold Wrap.strip_chars. simpl.
    change (License.is_space " ") with true. cbv iota.
    destruct (word_tight w Hw) as [H1 H2].
    now rewrite (lstrip_tight w H1), (lstrip_tight _ H2), reverse_involutive.
  - rewrite <- join_snoc by discriminate.
    assert (Hall : Forall WrapSpec.word ((v :: ws) ++ [w])).
    { apply Forall_app. split; [assumption|]. now constructor. }
    destruct (join_tight _ Hall). now apply strip_chars_tight.
Qed.

Lemma split_ws_word (w s cur : list ascii) :
  Forall (fun c => License.is_space c = false) w ->
  Wrap.split_ws cur (w ++ s) = Wrap.split_ws (cur ++ w) s.
Proof.
  intros Hw. revert cur. induction Hw as [|c w Hc _ IH]; intros cur; simpl.
  - now rewrite app_nil_r.
  - rewrite Hc, IH, <- app_assoc. reflexivity.
Qed.

Lemma split_ws_join (ws : list (list ascii)) :
  Forall WrapSpec.word ws -> Wrap.split_ws [] (WrapSpec.join ws) = ws.
Proof.
  induction 1 as [|w ws [Hne Hw] Hws IH]; [reflexivity|].
  destruct ws as [|v ws].
  - pose proof (split_ws_word w [] [] Hw) as H. rewrite app_nil_r in H.
    simpl. rewrite H. simpl. destruct w; [congruence|reflexivity].
  - rewrite join_cons by discriminate.
    rewrite split_ws_word by assumption. cbn [app Wrap.split_ws].
    change (License.is_space " ") with true. cbv iota.
    rewrite IH. destruct w; [congruence|reflexivity].
Qed.

Lemma split_ws_words (s cur : list ascii) :
  Forall (fun c => License.is_space c = false) cur ->
  Forall WrapSpec.word (Wrap.split_ws cur s).
Proof.
  revert cur. induction s as [|c s IH]; intros cur Hcur; simpl.
  - destruct cur; [constructor|]. constructor; [|constructor].
    split; [discriminate|assumption].
  - destruct (License.is_space c) eqn:E.
    + apply Forall_app. split; [|apply IH; constructor].
      destruct cur; [constructor|]. constructor; [|constructor].
      split; [discriminate|assumption].
    + apply IH. apply Forall_app. split; [assumption|]. now constructor.
Qed.

Lemma join_length_snoc (ws : list (list ascii)) (w : list ascii) :
  Forall WrapSpec.word ws ->
  Z.of_nat (length (WrapSpec.join (ws ++ [w])))
  = (Z.of_nat (length (WrapSpec.join ws)) + Z.of_nat (length w)
     + match WrapSpec.join ws with [] => 0 | _ => 1 end)%Z.
Proof.
  intros Hws. destruct ws as [|v ws].
  - simpl. lia.
  - rewrite join_snoc by discriminate.
    pose proof (join_nonempty (v :: ws) Hws ltac:(discriminate)) as Hne.
    destruct (WrapSpec.join (v :: ws)) as [|a j]; [congruence|].
    rewrite length_app. cbn [length]. lia.
Qed.

Lemma wrap_step_holds (width_chars : Z) (done : list (list ascii))
    (st : list ascii * list (list ascii)) (w : list ascii) :
  Forall WrapSpec.word done -> WrapSpec.word w ->
  WrapSpec.holds width_chars done st ->
  WrapSpec.holds width_chars (done ++ [w]) (Wrap.wrap_step width_chars st w).
Proof.
  intros Hdone Hw (groups & cur & Hline & Hout & Hcat & Hfits & Hcur).
  destruct st as [line out]. simpl in Hline, Hout. subst line out.
  assert (Hcurw : Forall WrapSpec.word cur).
  { rewrite <- Hcat in Hdone. apply Forall_app in Hdone. tauto. }
  unfold Wrap.wrap_step.
  destruct (_ <=? width_chars)%Z eqn:E.
  - apply Z.leb_le in E.
    exists groups, (cur ++ [w]). simpl.
    split; [now apply strip_join_snoc|]. split; [reflexivity|].
    split; [now rewrite app_assoc, Hcat|]. split; [assumption|].
    right. left. rewrite join_length_snoc by assumption. exact E.
  - exists (groups ++ [cur]), [w]. simpl.
    split; [reflexivity|]. split; [now rewrite map_app|].
    split.
    + rewrite concat_app. simpl. rewrite app_nil_r. now rewrite Hcat.
    + split; [|right; right; now exists w].
      apply Forall_app. split; [assumption|]. now constructor.
Qed.

Lemma wrap_loop_holds (width_chars : Z) (words done : list (list ascii))
    (st : list ascii * list (list ascii)) :
  Forall WrapSpec.word done -> Forall WrapSpec.word words ->
  WrapSpec.holds width_chars done st ->
  WrapSpec.holds width_chars (done ++ words)
    (foldl (Wrap.wrap_step width_chars) st words).
Proof.
  intros Hdone Hwords. revert done st Hdone.
  induction Hwords as [|w words Hw _ IH]; intros done st Hdone Hst; simpl.
  - now rewrite app_nil_r.
  - rewrite (cons_middle w done words), app_assoc. apply IH.
    + apply Forall_app. split; [assumption|]. now constructor.
    + now apply wrap_step_holds.
Qed.

(** [_wrap] loses no word and adds none: its lines are the words of the
    text, in order, put together with single spaces; every line is within
    the width, or is one word that is longer than the width, or is empty.
    An empty text gives one empty line. *)
Theorem wrap_keeps_words (text : string) (width_chars : Z) :
  exists groups : list (list (list ascii)),
    Wrap._wrap text width_chars = map WrapSpec.join groups
    /\ concat groups = Wrap.split_ws [] (Wrap.unbreak (chars text))
    /\ Forall (WrapSpec.fits width_chars) groups
    /\ concat (map (Wrap.split_ws []) (Wrap._wrap text width_chars))
       = Wrap.split_ws [] (Wrap.unbreak (chars text)).
Proof.
  unfold Wrap._wrap. cbv zeta.
  destruct (Wrap.unbreak (chars text)) as [|c t] eqn:Et.
  - exists [[]]. repeat split; try reflexivity.
    constructor; [now left|constructor].
  - set (words := Wrap.split_ws [] (c :: t)).
    assert (Hwords : Forall WrapSpec.word words)
      by (apply split_ws_words; constructor).
    pose proof (wrap_loop_holds width_chars words [] ([], [])
                  (Forall_nil_2 _) Hwords) as Hloop.
    simpl in Hloop.
    destruct Hloop as (groups & cur & Hline & Hout & Hcat & Hfits & Hcur).
    { exists [], []. repeat split; try reflexivity; [constructor|now left]. }
    destruct (foldl (Wrap.wrap_step width_chars) ([], []) words)
      as [line out]. simpl in Hline, Hout. subst line out.
    assert (Hall : Forall (Forall WrapSpec.word) (groups ++ [cur])).
    { apply Forall_concat. rewrite concat_app. simpl.
      rewrite app_nil_r, Hcat. exact Hwords. }
    assert (Hsplit : forall gs, Forall (Forall WrapSpec.word) gs ->
              concat (map (Wrap.split_ws []) (map WrapSpec.join gs))
              = concat gs).
    { induction 1 as [|g gs Hg _ IH]; [reflexivity|]. simpl.
      now rewrite split_ws_join, IH. }
    destruct (WrapSpec.join cur) as [|a l] eqn:Ej.
    + assert (Hc : cur = []).
      { destruct cur as [|v cur]; [reflexivity|]. exfalso.
        apply Forall_app in Hall as [_ Hc]. inversion Hc as [|? ? Hc' _]; subst.
        now apply (join_nonempty (v :: cur) Hc'). }
      subst cur. rewrite app_nil_r in Hcat.
      exists groups. repeat split; try assumption.
      rewrite Hsplit; [assumption|].
      apply Forall_app in Hall. tauto.
    + exists (groups ++ [cur]). rewrite map_app. simpl. rewrite Ej.
      repeat split.
      * rewrite concat_app. simpl. now rewrite app_nil_r.
      * apply Forall_app. split; [assumption|]. now constructor.
      * rewrite <- Ej.
        change (map WrapSpec.join groups ++ [WrapSpec.join cur])
          with (map WrapSpec.join groups ++ map WrapSpec.join [cur]).
        rewrite <- map_app, Hsplit by assumption.
        rewrite concat_app. simpl. now rewrite app_nil_r.
Qed.

(** A text without any word gives one empty line when it is empty, and no
    line at all when it is made of whitespace only. *)
Theorem wrap_blank (text : string) (width_chars : Z) :
  Wrap.split_ws [] (Wrap.unbreak (chars text)) = [] ->
  Wrap._wrap text width_chars
  = match chars text with
    | [] => [[]]
    | _ => []
    end.
Proof.
  intros Hblank. unfold Wrap._wrap. cbv zeta. rewrite Hblank.
  destruct (chars text); reflexivity.
Qed.

Lemma wrap_blank_witness : Wrap._wrap "  " 40 = [].
Proof. apply (wrap_blank "  " 40). reflexivity. Defined.

(** ** Upload cadence *)

Lemma Zleb_sorted_unique (l1 l2 : list Z) :
  StronglySorted (fun a b => Z.leb a b = true) l1 ->
  StronglySorted (fun a b => Z.leb a b = true) l2 ->
  l1 ≡ₚ l2 -> l1 = l2.
Proof.
  intros H1. revert l2.
  induction H1 as [|x l1 Hs1 IH Hx]; intros l2 H2 Hp.
  - now apply Permutation_nil_l.
  - destruct H2 as [|y l2 Hs2 Hy].
    + apply Permutation_nil_r in Hp. discriminate.
    + assert (Hxy : x = y).
      { assert (Hin1 : x ∈ y :: l2) by (rewrite <- Hp; left).
        assert (Hin2 : y ∈ x :: l1) by (rewrite Hp; left).
        apply elem_of_cons in Hin1. apply elem_of_cons in Hin2.
        destruct Hin1 as [?|Hin1]; [assumption|].
        destruct Hin2 as [?|Hin2]; [congruence|].
        rewrite Forall_forall in Hx, Hy.
        specialize (Hx _ Hin2). specialize (Hy _ Hin1).
        apply Z.leb_le in Hx, Hy. lia. }
      subst y. f_equal. apply IH; [assumption|].
      exact (Permutation_cons_inv Hp).
Qed.

Lemma Zleb_total (a b : Z) : Z.leb a b = true \/ Z.leb b a = true.
Proof. rewrite !Z.leb_le. lia. Qed.

Lemma Zleb_trans (a b c : Z) :
  Z.leb a b = true -> Z.leb b c = true -> Z.leb a c = true.
Proof. rewrite !Z.leb_le. lia. Qed.

Lemma sorted_instants (l : list Z) :
  StronglySorted (fun a b => Z.leb a b = true) (stable_sort Z.leb l).
Proof. exact (stable_sort_sorted Z.leb Zleb_total Zleb_trans l). Qed.

(** The cadence figures depend only on which instants parse, not on
    the order of the rows or on the rows whose date does not parse. *)
Theorem cadence_stats_input_order (fsqrt : Q -> Q)
    (published published' : list (option Z)) :
  omap id published ≡ₚ omap id published' ->
  Cadence.cadence_stats fsqrt published
  = Cadence.cadence_stats fsqrt published'.
Proof.
  intros Hp. unfold Cadence.cadence_stats.
  assert (Hs : stable_sort Z.leb (omap id published)
               = stable_sort Z.leb (omap id published')).
  { apply Zleb_sorted_unique; try apply sorted_instants.
    now rewrite !stable_sort_perm. }
  now rewrite Hs.
Qed.

Lemma cadence_stats_input_order_witness :
  omap id [Some 864000%Z; None; Some 0%Z] ≡ₚ omap id [Some 0%Z; Some 864000%Z]
  /\ Cadence.cadence_stats CadenceSpec.sqrt_approx
       [Some 864000%Z; None; Some 0%Z]
     = Cadence.cadence_stats CadenceSpec.sqrt_approx
         [Some 0%Z; Some 864000%Z].
Proof.
  split.
  - simpl. apply Permutation_swap.
  - apply (cadence_stats_input_order CadenceSpec.sqrt_approx
             [Some 864000%Z; None; Some 0%Z] [Some 0%Z; Some 864000%Z]).
    simpl. apply Permutation_swap.
Defined.

Lemma diffs_nonneg (t : Z) (l : list Z) :
  StronglySorted (fun a b => Z.leb a b = true) (t :: l) ->
  Forall (fun q => 0 <= q) (dropna (Cadence.diffs t l)).
Proof.
  revert t. induction l as [|x l IH]; intros t Hs; [constructor|].
  inversion Hs as [|? ? Hs' Hall]; subst.
  change (Forall (fun q => 0 <= q)
            (inject_Z (x - t) / 86400 :: dropna (Cadence.diffs x l))).
  constructor; [|now apply IH].
  inversion Hall as [|? ? Hx _]; subst. apply Z.leb_le in Hx.
  apply Qle_shift_div_l; [reflexivity|].
  unfold Qle. simpl. lia.
Qed.

Lemma gaps_nonneg (d : list Z) :
  StronglySorted (fun a b => Z.leb a b = true) d ->
  Forall (fun q => 0 <= q) (dropna (Cadence.gaps_of d)).
Proof.
  destruct d as [|t l]; intros Hs; [constructor|].
  now apply diffs_nonneg.
Qed.

Lemma median_of_nonneg (l : list Q) (m : Q) :
  Forall (fun q => 0 <= q) l -> median_of l = Some m -> 0 <= m.
Proof.
  intros Hl. unfold median_of.
  assert (Hs : Forall (fun q => 0 <= q) (stable_sort Qleb l))
    by now rewrite stable_sort_perm.
  revert Hs. generalize (stable_sort Qleb l). intros s Hs. cbv zeta.
  destruct (length s) as [|n] eqn:En; [discriminate|].
  destruct (Nat.even (S n)).
  - destruct (s !! (S n / 2 - 1)%nat) as [a|] eqn:Ea; [|discriminate].
    destruct (s !! (S n / 2)%nat) as [b|] eqn:Eb; [|discriminate].
    intros [= <-].
    pose proof (Forall_lookup_1 _ _ _ _ Hs Ea) as Ha.
    pose proof (Forall_lookup_1 _ _ _ _ Hs Eb) as Hb.
    simpl in Ha, Hb. apply Qle_shift_div_l; [reflexivity|]. lra.
  - intros Em. exact (Forall_lookup_1 _ _ _ _ Hs Em).
Qed.

Lemma round_half_even_nonneg (q : Q) : 0 <= q -> (0 <= round_half_even q)%Z.
Proof.
  intros H. pose proof (Qfloor_nonneg q H) as Hf. unfold round_half_even.
  cbv zeta. destruct (Qcompare _ _); [destruct (Z.even _)| |]; lia.
Qed.

Lemma round_dec2_nonneg (q : Q) : 0 <= q -> 0 <= round_dec 2 q.
Proof.
  intros H. unfold round_dec. cbv zeta.
  assert (Hq : 0 <= q * inject_Z (Z.pow_pos 10 (Pos.of_nat 2))).
  { apply Qmult_le_0_compat; [assumption|]. vm_compute. discriminate. }
  pose proof (round_half_even_nonneg _ Hq) as Hr.
  unfold Qle. simpl Qnum. simpl Qden. lia.
Qed.

Lemma freq_term_range (u : Cadence.xfloat) :
  match u with Cadence.Finite q => 0 <= q | Cadence.Infinity => True end ->
  0 <= Cadence.freq_term u <= 1.
Proof.
  destruct u as [q|]; simpl; intros Hq.
  - split.
    + apply Qmin_nonneg; [lra|]. apply Qle_shift_div_l; [reflexivity|]. lra.
    + unfold Qmin. destruct (Qle_bool 1 (q / 3)) eqn:E; [lra|].
      apply Qle_bool_false in E. lra.
  - split; lra.
Qed.

Lemma seven_over_nonneg (m : fcell) :
  match m with Some g => 0 <= g | None => True end ->
  match Cadence.seven_over m with
  | Cadence.Finite q => 0 <= q
  | Cadence.Infinity => True
  end.
Proof.
  destruct m as [g|]; simpl; intros Hg; [|lra].
  destruct (Qeq_bool g 0) eqn:E; [exact I|].
  apply round_dec2_nonneg. apply Qle_shift_div_l; [|lra].
  apply Qeq_bool_neq in E. destruct (Qle_lt_or_eq _ _ Hg) as [?|Heq];
    [assumption|]. exfalso. apply E. now symmetry.
Qed.

Lemma stability_range (v : Q) : 0 <= v -> 0 <= 1 / (1 + v) <= 1.
Proof.
  intros Hv. split.
  - apply Qle_shift_div_l; lra.
  - apply Qle_shift_div_r; lra.
Qed.


Lemma trunc_range (x : Q) : 0 <= x <= 100 -> (0 <= trunc x <= 100)%Z.
Proof.
  intros [H0 H1]. rewrite (trunc_nonneg x H0). split.
  - now apply Qfloor_nonneg.
  - change 100%Z with (Qfloor 100). now apply Qfloor_resp_le.
Qed.

Section CadenceFacts.
Variable fsqrt : Q -> Q.
Hypothesis fsqrt_nonneg : forall q, 0 <= fsqrt q.

Lemma gap_stddev_code (published : list (option Z)) :
  (if (2 <=? length (dropna (CadenceSpec.gaps published)))%nat
   then default 0 (s_std fsqrt 1 (CadenceSpec.gaps published))
   else 5)
  = CadenceSpec.gap_stddev fsqrt published.
Proof.
  unfold CadenceSpec.gap_stddev, s_std. cbv zeta.
  destruct (length (dropna (CadenceSpec.gaps published))) as [|[|n]];
    reflexivity.
Qed.

Lemma gap_stddev_nonneg (published : list (option Z)) :
  0 <= CadenceSpec.gap_stddev fsqrt published.
Proof.
  unfold CadenceSpec.gap_stddev, s_std. cbv zeta.
  destruct (length _ <=? 1)%nat; [lra|apply fsqrt_nonneg].
Qed.

Lemma uploads_week_nonneg (published : list (option Z)) :
  match Cadence.uploads_week (Cadence.cadence_stats fsqrt published) with
  | Cadence.Finite q => 0 <= q
  | Cadence.Infinity => True
  end.
Proof.
  unfold Cadence.cadence_stats.
  pose proof (sorted_instants (omap id published)) as Hs.
  destruct (stable_sort Z.leb (omap id published)) as [|t d] eqn:Ed;
    [simpl; lra|].
  cbv zeta. cbn [Cadence.uploads_week].
  destruct (existsb notna (Cadence.gaps_of (t :: d))); [|simpl; lra].
  apply seven_over_nonneg. unfold s_median.
  destruct (median_of (dropna (Cadence.gaps_of (t :: d)))) as [m|] eqn:Em;
    [|exact I].
  eapply median_of_nonneg; [|exact Em]. now apply gaps_nonneg.
Qed.

Lemma consistency_code (published : list (option Z)) :
  omap id published <> [] ->
  Cadence.consistency_100 (Cadence.cadence_stats fsqrt published)
  = CadenceSpec.consistency_truncated fsqrt published.
Proof.
  intros Hne. unfold CadenceSpec.consistency_truncated, CadenceSpec.blend.
  rewrite <- gap_stddev_code. unfold CadenceSpec.gaps, Cadence.cadence_stats.
  destruct (stable_sort Z.leb (omap id published)) as [|t d] eqn:Ed.
  - exfalso. apply Hne. apply Permutation_nil_r.
    rewrite <- (stable_sort_perm Z.leb). now rewrite Ed.
  - cbv zeta. cbn [Cadence.consistency_100 Cadence.uploads_week].
    apply trunc_comp. ring.
Qed.

Lemma blend_range (published : list (option Z)) :
  0 <= CadenceSpec.blend
         (Cadence.uploads_week (Cadence.cadence_stats fsqrt published))
         (CadenceSpec.gap_stddev fsqrt published) <= 100.
Proof.
  unfold CadenceSpec.blend.
  pose proof (freq_term_range _ (uploads_week_nonneg published)) as Hf.
  pose proof (stability_range _ (gap_stddev_nonneg published)) as Hv.
  revert Hf Hv.
  generalize (Cadence.freq_term
    (Cadence.uploads_week (Cadence.cadence_stats fsqrt published))).
  generalize (1 / (1 + CadenceSpec.gap_stddev fsqrt published)).
  intros s f Hf Hs. lra.
Qed.

End CadenceFacts.

(** Whatever the upload dates, the consistency score is a whole
    number from 0 to 100 (the float square root never being negative). *)
Theorem cadence_consistency_range (fsqrt : Q -> Q)
    (published : list (option Z)) :
  (forall q, 0 <= fsqrt q) ->
  (0 <= Cadence.consistency_100 (Cadence.cadence_stats fsqrt published)
     <= 100)%Z.
Proof.
  intros Hsq.
  destruct (omap id published) as [|t l] eqn:E.
  - unfold Cadence.cadence_stats. rewrite E. simpl. lia.
  - rewrite (consistency_code fsqrt published) by (rewrite E; discriminate).
    apply trunc_range, blend_range, Hsq.
Qed.

Lemma sqrt_approx_nonneg (q : Q) : 0 <= CadenceSpec.sqrt_approx q.
Proof.
  unfold CadenceSpec.sqrt_approx, Qle. simpl Qnum. simpl Qden.
  pose proof (Z.sqrt_nonneg (Qnum q * Z.pos (Qden q) * 10 ^ 12)). lia.
Qed.

Lemma cadence_consistency_range_witness :
  (0 <= Cadence.consistency_100
          (Cadence.cadence_stats CadenceSpec.sqrt_approx
             [Some 0%Z; Some 302400%Z]) <= 100)%Z.
Proof.
  apply (cadence_consistency_range CadenceSpec.sqrt_approx
           [Some 0%Z; Some 302400%Z]).
  exact sqrt_approx_nonneg.
Defined.



(** ** The reach of the health score *)

Lemma round_half_even_le (y : Q) (n : Z) :
  y <= inject_Z n -> (round_half_even y <= n)%Z.
Proof.
  intros H. unfold round_half_even. cbv zeta.
  assert (Hf : (Qfloor y <= n)%Z).
  { rewrite <- (Qfloor_Z n). now apply Qfloor_resp_le. }
  destruct (Z.eq_dec (Qfloor y) n) as [E|E].
  - assert (Hc : Qcompare (y - inject_Z (Qfloor y)) (1 # 2) = Lt).
    { apply (proj1 (Qlt_alt _ _)). rewrite E. revert H. generalize (inject_Z n). intros m H. lra. }
    rewrite Hc. lia.
  - destruct (Qcompare _ _); [destruct (Z.even _)| |]; lia.
Qed.

Lemma round_dec1_le (x : Q) (n : Z) :
  x <= inject_Z n -> round_dec 1 x <= inject_Z n.
Proof.
  intros H. unfold round_dec. cbv zeta.
  change (Z.pow_pos 10 (Pos.of_nat 1)) with 10%Z.
  assert (Hx : x * inject_Z 10 <= inject_Z (n * 10)).
  { rewrite inject_Z_mult. change (inject_Z 10) with 10. lra. }
  pose proof (round_half_even_le _ _ Hx) as Hr.
  unfold Qle. simpl Qnum. simpl Qden. lia.
Qed.

Lemma clip_range (lo hi x : Q) : lo <= hi -> lo <= clip lo hi x <= hi.
Proof.
  intros H. unfold clip, Qmin, Qmax.
  destruct (Qle_bool lo x) eqn:E1.
  - apply Qle_bool_true in E1.
    destruct (Qle_bool hi x) eqn:E2.
    + split; lra.
    + apply Qle_bool_false in E2. split; lra.
  - destruct (Qle_bool hi lo) eqn:E2.
    + split; lra.
    + split; lra.
Qed.

Lemma clip_upper (lo hi x c : Q) : lo <= c -> x <= c -> clip lo hi x <= c.
Proof.
  intros Hlo Hx. unfold clip, Qmin, Qmax.
  destruct (Qle_bool lo x) eqn:E1.
  - destruct (Qle_bool hi x) eqn:E2; [|exact Hx].
    apply Qle_bool_true in E2. lra.
  - destruct (Qle_bool hi lo) eqn:E2; [|exact Hlo].
    apply Qle_bool_true in E2. lra.
Qed.

Lemma raw_health_upper (a b m : Q) (t : bool) :
  a <= 3 -> b <= 5 -> 0 <= m ->
  (a + 2) / 5 * 60 + b * 4 - m * 3 + (if t then 5 else 0) <= inject_Z 85.
Proof.
  intros Ha Hb Hm. change (inject_Z 85) with 85.
  unfold Qdiv. change (/ 5) with (1 # 5). destruct t; lra.
Qed.

(** Every video gets a health score, and none is above 85: the
    parts add up to at most 60 + 20 - 0 + 5, so that the upper clamp at
    100 never acts. *)
Theorem health_100_at_most_85 (fsqrt : Q -> Q) (df : list Health.audited) :
  length (Health.health_100 fsqrt df) = length df
  /\ Forall (fun h => exists q, h = Some q /\ 0 <= q <= 85)
       (Health.health_100 fsqrt df).
Proof.
  unfold Health.health_100. cbv zeta. rewrite vpm_z_rows, health_rows.
  split; [apply length_map|].
  apply Forall_fmap, Forall_forall. intros r _. eexists. split; [reflexivity|].
  split; [apply clip_range; discriminate|].
  apply clip_upper; [discriminate|].
  apply (round_dec1_le _ 85). apply raw_health_upper.
  - apply clip_range. discriminate.
  - apply clip_range. discriminate.
  - unfold Qle. simpl. lia.
Qed.

(** ** Capped idea titles *)


Lemma lstrip_suffix (l : list ascii) :
  exists ws, l = ws ++ License.lstrip l
             /\ Forall (fun c => License.is_space c = true) ws.
Proof.
  induction l as [|c l (ws & IH & Hws)]; [now exists []|].
  simpl. destruct (License.is_space c) eqn:E.
  - exists (c :: ws). split; [simpl; now rewrite <- IH|].
    constructor; assumption.
  - now exists [].
Qed.

Lemma lstrip_head (l : list ascii) (c : ascii) :
  head (License.lstrip l) = Some c -> License.is_space c = false.
Proof.
  induction l as [|a l IH]; simpl; [discriminate|].
  destruct (License.is_space a) eqn:E; [exact IH|].
  simpl. now intros [= <-].
Qed.

Lemma rstrip_prefix (l : list ascii) :
  exists ws, l = Ideas.rstrip l ++ ws
             /\ Forall (fun c => License.is_space c = true) ws.
Proof.
  unfold Ideas.rstrip.
  destruct (lstrip_suffix (reverse l)) as (ws & E & Hws).
  exists (reverse ws). split.
  - rewrite <- reverse_app, <- E. now rewrite reverse_involutive.
  - now apply Forall_reverse.
Qed.

Lemma rstrip_last (l : list ascii) (c : ascii) :
  last (Ideas.rstrip l) = Some c -> License.is_space c = false.
Proof.
  unfold Ideas.rstrip. rewrite last_reverse. apply lstrip_head.
Qed.


(** ** Channel references *)

Lemma strip_prefix_long (p l t : list ascii) :
  (length p <= length l)%nat ->
  strip_prefix p (l ++ t) = fmap (fun r => r ++ t) (strip_prefix p l).
Proof.
  revert l. induction p as [|a p IH]; intros l Hlen; [reflexivity|].
  destruct l as [|b l]; [simpl in Hlen; lia|].
  simpl. destruct (ascii_eqb a b); [|reflexivity].
  apply IH. simpl in Hlen. lia.
Qed.

Lemma strip_prefix_self (p t : list ascii) : strip_prefix p (p ++ t) = Some t.
Proof.
  induction p as [|a p IH]; [reflexivity|]. simpl.
  unfold ascii_eqb. now rewrite N.eqb_refl.
Qed.

Lemma split_on_skip (sep x cur tail : list ascii) :
  Channel.split_on sep (length x) cur (x ++ tail)
  = Channel.split_on sep 0 cur tail.
Proof.
  induction x as [|c x IH]; [reflexivity|]. exact IH.
Qed.

Lemma split_on_head (sep cur s : list ascii) :
  exists p q tl,
    s = p ++ q
    /\ Channel.split_on sep 0 cur s = (reverse cur ++ p) :: tl
    /\ (q = [] \/ is_Some (strip_prefix sep q)).
Proof.
  revert cur. induction s as [|c s IH]; intros cur.
  - exists [], [], []. split; [reflexivity|]. split; [|now left].
    cbn [Channel.split_on]. now rewrite app_nil_r.
  - cbn [Channel.split_on].
    destruct (strip_prefix sep (c :: s)) as [r|] eqn:E.
    + exists [], (c :: s), (Channel.split_on sep (length sep - 1) [] s).
      split; [reflexivity|]. split; [now rewrite app_nil_r|].
      right. now exists r.
    + destruct (IH (c :: cur)) as (p & q & tl & Hs & Hsp & Hq).
      exists (c :: p), q, tl. subst s. split; [reflexivity|].
      split; [|exact Hq].
      rewrite Hsp, reverse_cons, <- app_assoc. reflexivity.
Qed.

Lemma split_on_free (a : ascii) (sep' x cur tail : list ascii) :
  Forall (fun c => ascii_eqb a c = false) x ->
  Channel.split_on (a :: sep') 0 cur (x ++ tail)
  = Channel.split_on (a :: sep') 0 (reverse x ++ cur) tail.
Proof.
  intros Hx. revert cur. induction Hx as [|c x Hc _ IH]; intros cur;
    [reflexivity|].
  cbn [app Channel.split_on strip_prefix]. rewrite Hc, IH.
  now rewrite reverse_cons, <- app_assoc.
Qed.

Lemma split_on_first (init : list ascii) (z : ascii)
    (pre cur tail : list ascii) :
  Channel.contains (init ++ [z]) (pre ++ init) = false ->
  Channel.split_on (init ++ [z]) 0 cur (pre ++ (init ++ [z]) ++ tail)
  = (reverse cur ++ pre) :: Channel.split_on (init ++ [z]) 0 [] tail.
Proof.
  revert cur. induction pre as [|c pre IH]; intros cur H.
  - rewrite app_nil_r. cbn [app].
    destruct (init ++ [z]) as [|a sep'] eqn:Es;
      [destruct init; discriminate|].
    cbn [app Channel.split_on].
    change (a :: sep' ++ tail) with ((a :: sep') ++ tail).
    rewrite strip_prefix_self. f_equal.
    replace (length (a :: sep') - 1)%nat with (length sep')
      by (cbn [length]; lia).
    apply split_on_skip.
  - cbn [app Channel.contains] in H.
    destruct (strip_prefix (init ++ [z]) (c :: pre ++ init)) eqn:E;
      [discriminate|].
    cbn [app Channel.split_on].
    assert (En : strip_prefix (init ++ [z])
                   (c :: pre ++ (init ++ [z]) ++ tail) = None).
    { change (c :: pre ++ (init ++ [z]) ++ tail)
        with ((c :: pre) ++ (init ++ [z]) ++ tail).
      rewrite <- (app_assoc init), (app_assoc (c :: pre)).
      rewrite strip_prefix_long.
      - cbn [app]. now rewrite E.
      - rewrite !length_app. cbn [length]. lia. }
    rewrite En, (IH (c :: cur) H), reverse_cons, <- app_assoc. reflexivity.
Qed.

Lemma contains_at (sep pre tail : list ascii) :
  Channel.contains sep (pre ++ sep ++ tail) = true.
Proof.
  induction pre as [|c pre IH].
  - cbn [app]. destruct (sep ++ tail) eqn:E;
      cbn [Channel.contains]; rewrite <- E, strip_prefix_self; reflexivity.
  - cbn [app Channel.contains]. rewrite IH.
    now destruct (strip_prefix sep (c :: pre ++ sep ++ tail)).
Qed.

Lemma ascii_eqb_neq (a c : ascii) : c <> a -> ascii_eqb a c = false.
Proof.
  intros H. unfold ascii_eqb, code. apply N.eqb_neq. intros E. apply H.
  rewrite <- (ascii_N_embedding c), <- (ascii_N_embedding a). now rewrite E.
Qed.

Lemma lstrip_nospace (l : list ascii) :
  Forall (fun c => License.is_space c = false) l -> License.lstrip l = l.
Proof. destruct 1 as [|c l Hc _]; simpl; [reflexivity|]. now rewrite Hc. Qed.

Lemma strip_url (ws1 ws2 url : list ascii) :
  Forall (fun c => License.is_space c = true) ws1 ->
  Forall (fun c => License.is_space c = true) ws2 ->
  Forall (fun c => License.is_space c = false) url ->
  License.strip (string_of_list_ascii (ws1 ++ url ++ ws2))
  = string_of_list_ascii url.
Proof.
  intros H1 H2 Hu. unfold License.strip. rewrite chars_of_list. f_equal.
  rewrite strip_padding by assumption.
  rewrite (lstrip_nospace url Hu).
  rewrite lstrip_nospace by now apply Forall_reverse.
  apply reverse_involutive.
Qed.

(** A channel address gives its channel id.  For text that, white
    space around it apart, reads [pre/channel/id] or [pre/channel/id/...],
    where [/channel/] first occurs after [pre], [youtube.com] occurs in
    the text, the text does not begin with [UC] and the id has no slash,
    the result is the id. *)
Theorem parse_channel_url (ws1 ws2 pre cid rest : list ascii) :
  Forall (fun c => License.is_space c = true) ws1 ->
  Forall (fun c => License.is_space c = true) ws2 ->
  Forall (fun c => License.is_space c = false)
    (pre ++ chars "/channel/" ++ cid ++ rest) ->
  strip_prefix (chars "UC") (pre ++ chars "/channel/" ++ cid ++ rest) = None ->
  Channel.contains (chars "youtube.com")
    (pre ++ chars "/channel/" ++ cid ++ rest) = true ->
  Channel.contains (chars "/channel/") (pre ++ chars "/channel") = false ->
  Forall (fun c => c <> "/"%char) cid ->
  (rest = [] \/ head rest = Some "/"%char) ->
  Channel.parse_channel_or_id
    (string_of_list_ascii
       (ws1 ++ (pre ++ chars "/channel/" ++ cid ++ rest) ++ ws2))
  = string_of_list_ascii cid.
Proof.
  intros H1 H2 Hu Huc Hyt Hfirst Hid Hrest.
  unfold Channel.parse_channel_or_id. cbv zeta.
  rewrite (strip_url ws1 ws2 _ H1 H2 Hu), chars_of_list, Huc, Hyt.
  rewrite contains_at. cbn [andb]. f_equal.
  assert (Hfree : Forall (fun c => ascii_eqb "/" c = false) cid).
  { eapply Forall_impl; [exact Hid|]. intros c. apply ascii_eqb_neq. }
  unfold Channel.split.
  change (chars "/channel/") with (chars "/channel" ++ ["/"%char]).
  rewrite (split_on_first (chars "/channel") "/" pre [] (cid ++ rest) Hfirst).
  cbn [lookup list_lookup default from_option id].
  change (chars "/channel" ++ ["/"%char])
    with ("/"%char :: chars "channel/").
  rewrite (split_on_free "/" (chars "channel/") cid [] rest Hfree).
  destruct (split_on_head ("/"%char :: chars "channel/")
              (reverse cid ++ []) rest) as (p & q & tl & Hr & Hsp & _).
  rewrite Hsp. cbn [lookup list_lookup default from_option id].
  rewrite app_nil_r, reverse_involutive.
  change (chars "/") with ("/"%char :: []).
  rewrite (split_on_free "/" [] cid [] p Hfree), app_nil_r.
  destruct p as [|c p].
  - cbn [Channel.split_on lookup list_lookup default from_option id].
    apply reverse_involutive.
  - destruct Hrest as [->|Hh]; [discriminate|].
    rewrite Hr in Hh. injection Hh as ->.
    cbn [Channel.split_on strip_prefix].
    change (ascii_eqb "/" "/") with true. cbv iota.
    cbn [lookup list_lookup default from_option id]. apply reverse_involutive.
Qed.

Lemma parse_channel_url_witness :
  Channel.parse_channel_or_id
    " https://www.youtube.com/channel/UCabc123/videos"
  = "UCabc123"%string.
Proof.
  apply (parse_channel_url [" "%char] [] (chars "https://www.youtube.com")
           (chars "UCabc123") (chars "/videos")).
  - repeat constructor.
  - constructor.
  - repeat constructor.
  - reflexivity.
  - reflexivity.
  - reflexivity.
  - repeat (constructor; [discriminate|]). constructor.
  - right. reflexivity.
Defined.

Lemma split_on_nonempty (sep : list ascii) (skip : nat) (cur s : list ascii) :
  exists h tl, Channel.split_on sep skip cur s = h :: tl.
Proof.
  revert skip cur. induction s as [|c s IH]; intros skip cur.
  - now exists (reverse cur), [].
  - cbn [Channel.split_on]. destruct skip as [|k]; [|apply IH].
    destruct (strip_prefix sep (c :: s)); [|apply IH].
    now eexists _, _.
Qed.

Lemma split_on_two (sep cur s : list ascii) :
  sep <> [] -> Channel.contains sep s = true ->
  exists a b tl, Channel.split_on sep 0 cur s = a :: b :: tl.
Proof.
  intros Hsep. revert cur. induction s as [|c s IH]; intros cur Hc.
  - destruct sep; [congruence | discriminate].
  - cbn [Channel.split_on]. cbn [Channel.contains] in Hc.
    destruct (strip_prefix sep (c :: s)).
    + destruct (split_on_nonempty sep (length sep - 1) [] s) as (h & tl & E).
      rewrite E. now eexists _, _, _.
    + now apply IH.
Qed.

(** The index lookups of [parse_channel_or_id] never fail: a split
    always has a first piece, and it has a second piece whenever the
    separator occurs in the text; when the separator does not occur, the
    text is the only piece. *)
Theorem split_pieces (sep s : list ascii) :
  sep <> [] ->
  is_Some (Channel.split sep s !! 0%nat)
  /\ (Channel.contains sep s = true -> is_Some (Channel.split sep s !! 1%nat))
  /\ (Channel.contains sep s = false -> Channel.split sep s = [s]).
Proof.
  intros Hsep. unfold Channel.split. split; [|split].
  - destruct (split_on_nonempty sep 0 [] s) as (h & tl & ->). now exists h.
  - intros Hc. destruct (split_on_two sep [] s Hsep Hc) as (a & b & tl & ->).
    now exists b.
  - intros Hc. change [s] with [reverse [] ++ s]. generalize (@nil ascii).
    induction s as [|c s IH]; intros cur.
    + cbn [Channel.split_on]. now rewrite app_nil_r.
    + cbn [Channel.split_on]. cbn [Channel.contains] in Hc.
      destruct (strip_prefix sep (c :: s)); [discriminate|].
      rewrite (IH Hc), reverse_cons, <- app_assoc. reflexivity.
Qed.

Lemma split_pieces_witness :
  is_Some (Channel.split (chars "/channel/")
             (chars "youtube.com/channel/UCabc") !! 1%nat).
Proof.
  apply (split_pieces (chars "/channel/") (chars "youtube.com/channel/UCabc"));
    [discriminate | reflexivity].
Defined.

(** ** Idea seeds *)

Lemma lower_char_term (c : ascii) :
  Seed.is_term_char c = true -> Seed.is_term_char (lower_char c) = true.
Proof.
  destruct c as [[] [] [] [] [] [] [] []]; vm_compute; congruence.
Qed.

Lemma title_char_class (b : bool) (c : ascii) :
  Seed.is_term_char (Seed.title_char b c) = Seed.is_term_char c
  /\ License.is_space (Seed.title_char b c) = License.is_space c.
Proof.
  destruct b; destruct c as [[] [] [] [] [] [] [] []]; vm_compute;
    split; reflexivity.
Qed.

Lemma sub_runs_term (in_run : bool) (s : list ascii) :
  Forall (fun c => Seed.is_term_char c = true) (Seed.sub_runs in_run s).
Proof.
  revert in_run. induction s as [|c s IH]; intros in_run; simpl;
    [constructor|].
  destruct (Seed.is_term_char c) eqn:E; [now constructor|].
  destruct in_run; [apply IH|]. constructor; [reflexivity|apply IH].
Qed.

Lemma strip_chars_Forall (P : ascii -> Prop) (s : list ascii) :
  Forall P s -> Forall P (Wrap.strip_chars s).
Proof.
  intros H. change (Wrap.strip_chars s) with (Ideas.rstrip (License.lstrip s)).
  destruct (lstrip_suffix s) as (ws & E & _).
  rewrite E in H. apply Forall_app in H as [_ H].
  destruct (rstrip_prefix (License.lstrip s)) as (ws' & E' & _).
  rewrite E' in H. now apply Forall_app in H as [H _].
Qed.

Lemma strip_chars_head (s : list ascii) (c : ascii) :
  head (Wrap.strip_chars s) = Some c -> License.is_space c = false.
Proof.
  change (Wrap.strip_chars s) with (Ideas.rstrip (License.lstrip s)).
  destruct (rstrip_prefix (License.lstrip s)) as (ws & E & _).
  intros H. apply (lstrip_head s). rewrite E.
  destruct (Ideas.rstrip (License.lstrip s)); [discriminate|exact H].
Qed.

Lemma strip_chars_last (s : list ascii) (c : ascii) :
  last (Wrap.strip_chars s) = Some c -> License.is_space c = false.
Proof.
  change (Wrap.strip_chars s) with (Ideas.rstrip (License.lstrip s)).
  apply rstrip_last.
Qed.

Lemma split_ws_Forall (P : ascii -> Prop) (cur s : list ascii) :
  Forall P cur -> Forall P s -> Forall (Forall P) (Wrap.split_ws cur s).
Proof.
  intros Hcur Hs. revert cur Hcur.
  induction Hs as [|c s Hc _ IH]; intros cur Hcur; simpl.
  - destruct cur; [constructor|]. now constructor.
  - destruct (License.is_space c).
    + apply Forall_app. split; [|apply IH; constructor].
      destruct cur; [constructor|]. now constructor.
    + apply IH. apply Forall_app. split; [assumption|]. now constructor.
Qed.

Lemma seed_join_Forall (P : ascii -> Prop) (ws : list (list ascii)) :
  P " "%char -> Forall (Forall P) ws -> Forall P (Seed.join ws).
Proof.
  intros Hsp. induction 1 as [|w ws Hw Hws IH]; [constructor|].
  destruct ws as [|w' ws]; [exact Hw|].
  change (Forall P (w ++ " "%char :: Seed.join (w' :: ws))).
  apply Forall_app. split; [exact Hw|]. now constructor.
Qed.

Lemma title_Forall (P : ascii -> Prop) (b : bool) (s : list ascii) :
  (forall b c, P c -> P (Seed.title_char b c)) ->
  Forall P s -> Forall P (Seed.title b s).
Proof.
  intros HP Hs. revert b. induction Hs as [|c s Hc _ IH]; intros b; simpl;
    constructor; [now apply HP | apply IH].
Qed.

Lemma title_last (b : bool) (s : list ascii) (c : ascii) :
  last (Seed.title b s) = Some c ->
  exists b' c', last s = Some c' /\ c = Seed.title_char b' c'.
Proof.
  revert b. induction s as [|x s IH]; intros b; [discriminate|].
  destruct s as [|y s].
  - simpl. intros [= <-]. now exists b, x.
  - change (last (Seed.title b (x :: y :: s)))
      with (last (Seed.title (Seed.is_cased x) (y :: s))).
    change (last (x :: y :: s)) with (last (y :: s)). apply IH.
Qed.

(** The seed put into a title template is never empty, holds only
    letters, digits, spaces and apostrophes, and neither begins nor ends
    with white space. *)
Theorem clean_term_shape (t : string) :
  Seed._clean_term t <> ""%string
  /\ Forall (fun c => Seed.is_term_char c = true) (chars (Seed._clean_term t))
  /\ (forall c, head (chars (Seed._clean_term t)) = Some c ->
        License.is_space c = false)
  /\ (forall c, last (chars (Seed._clean_term t)) = Some c ->
        License.is_space c = false).
Proof.
  unfold Seed._clean_term. cbv zeta.
  set (words := filter _ _).
  assert (Hwords : Forall (Forall (fun c => Seed.is_term_char c = true)) words).
  { subst words. apply Forall_forall. intros w Hw.
    apply list_elem_of_filter in Hw as [_ Hw]. revert w Hw.
    apply Forall_forall. apply split_ws_Forall; [constructor|].
    unfold lower. apply Forall_fmap.
    eapply Forall_impl; [apply strip_chars_Forall, sub_runs_term|].
    intros c. apply lower_char_term. }
  pose proof (strip_chars_Forall _ _
    (seed_join_Forall _ words eq_refl Hwords)) as Hs.
  pose proof (strip_chars_head (Seed.join words)) as Hh.
  pose proof (strip_chars_last (Seed.join words)) as Hl.
  destruct (Wrap.strip_chars (Seed.join words)) as [|a s] eqn:E.
  - split; [discriminate|]. split; [repeat constructor|].
    split; intros c; vm_compute; intros [= <-]; reflexivity.
  - rewrite chars_of_list. split; [discriminate|]. split; [|split].
    + apply title_Forall; [|exact Hs].
      intros b c. now rewrite (proj1 (title_char_class b c)).
    + intros c. simpl. intros [= <-].
      rewrite (proj2 (title_char_class false a)). now apply Hh.
    + intros c Hc. apply title_last in Hc as (b' & c' & Hc' & ->).
      rewrite (proj2 (title_char_class b' c')). now apply Hl.
Qed.
